(** * Leveraged buy-and-hold simulator: [Strategies/buy_and_hold.py]

    A shallow embedding of the class [BuyAndHold] and the properties its
    specification states about it.

    Numbers.  The source computes on numpy [float64] values.  The
    embedding computes on exact rationals [Q]: rounding, infinities and
    NaN are outside it.  In particular numpy answers a division by zero
    with an infinity or a NaN and goes on, while [Qdiv] answers [0]; a
    statement about a computed quotient is therefore only to be read for
    a nonzero divisor.  The one place where pandas itself introduces a
    missing value, the first entry of a shifted series, is modelled: such
    series have entries of type [option Q].

    Failures.  A Python exception ([IndexError], [TypeError] on the unset
    [signals], [ValueError] of a column assignment of the wrong length)
    is [None] in the [option] monad.

    The frame.  [self.df] is read through three input columns, a row
    being addressed by its position ([column[i]] on the default integer
    index or on a date index).  The methods also store each series they
    return as a new column of the frame; no method reads such a column
    back, so the embedding keeps the returned series and the length
    check of the assignment only. *)

From Stdlib Require Import QArith Qabs Lqa Lia.
From stdpp Require Import base option list.

Open Scope Q_scope.

(** ** Comparisons on rationals, as decisions *)

#[global] Instance Qlt_dec : RelDecision Qlt.
Proof.
  intros x y. destruct (Qlt_le_dec x y) as [Hlt | Hge].
  - left. exact Hlt.
  - right. apply Qle_not_lt. exact Hge.
Defined.

#[global] Instance Qle_dec : RelDecision Qle.
Proof.
  intros x y. destruct (Qlt_le_dec y x) as [Hlt | Hge].
  - right. apply Qlt_not_le. exact Hlt.
  - left. exact Hge.
Defined.

(** ** Data model *)

(** One period of the input frame: the columns ['Adj Close'],
    ['Return/Unit'] and ['Daily Rate']. *)
Record Row : Type := mkRow {
  Adj_Close : Q;
  Return_Unit : Q;
  Daily_Rate : Q
}.

Abbreviation DataFrame := (list Row) (only parsing).

(** A pandas series that may hold missing values. *)
Abbreviation Series := (list (option Q)) (only parsing).

(** The frame built by [generate_signals]: columns ['Signal'] and
    ['Position']. *)
Record Signals : Type := mkSignals {
  Signal : list Q;
  Position : Series
}.

(** The object: configuration, frame and the four growing sequences. *)
Record BuyAndHold : Type := mkBuyAndHold {
  signals : option Signals;
  df : DataFrame;
  V_0 : Q;
  L : Q;
  theta_0 : Q;
  theta : list Q;
  cap_V : list Q;
  PnL : list Q;
  stock_hold : list Q
}.

(** ** Control flow of a [for] loop with [break] *)

Inductive ctl (A : Type) : Type :=
| Next (a : A)
| Break (a : A).
Arguments Next {A} a.
Arguments Break {A} a.

(** [range(a, b)] *)
Definition range (a b : nat) : list nat := seq a (b - a).

Section ForLoop.
Context {A : Type}.
Variable body : nat → A → option (ctl A).

Fixpoint for_loop (rng : list nat) (s : A) : option A :=
  match rng with
  | [] => Some s
  | i :: rest =>
      match body i s with
      | None => None
      | Some (Break s') => Some s'
      | Some (Next s') => for_loop rest s'
      end
  end.
End ForLoop.

(** ** pandas helpers *)

(** [s.shift(1)]: every value moves one period later, the first entry is
    missing and the last value is dropped. *)
Definition shift1 (s : list Q) : Series :=
  take (length s) (None :: (Some <$> s)).

(** [a - b] for aligned series: missing wherever [b] is missing. *)
Definition series_sub (a : list Q) (b : Series) : Series :=
  zip_with (λ x oy, match oy with Some y => Some (x - y) | None => None end) a b.

(** [s.diff()], that is [s - s.shift(1)]. *)
Definition diff (s : list Q) : Series := series_sub s (shift1 s).

(** [abs(s)] *)
Definition series_abs (s : Series) : Series := (λ ox : option Q, Qabs <$> ox) <$> s.

(** [s.cumsum()]: a missing entry stays missing and is skipped by the
    running sum. *)
Fixpoint cumsum_from (acc : option Q) (s : Series) : Series :=
  match s with
  | [] => []
  | None :: rest => None :: cumsum_from acc rest
  | Some x :: rest =>
      let acc' := match acc with Some a => a + x | None => x end in
      Some acc' :: cumsum_from (Some acc') rest
  end.

Definition cumsum (s : Series) : Series := cumsum_from None s.

(** [np.cumsum] on a series without missing values. *)
Fixpoint np_cumsum_from (acc : option Q) (s : list Q) : list Q :=
  match s with
  | [] => []
  | x :: rest =>
      let acc' := match acc with Some a => a + x | None => x end in
      acc' :: np_cumsum_from (Some acc') rest
  end.

Definition np_cumsum (s : list Q) : list Q := np_cumsum_from None s.

(** [self.df[name] = values] for a list or an array: pandas refuses a
    value whose length is not the number of rows.  The result is the
    column read back. *)
Definition df_assign {A : Type} (d : DataFrame) (values : list A) : option (list A) :=
  if decide (length values = length d) then Some values else None.

(** ** The class *)

Definition __init__ (d : DataFrame) (V0 Lev : Q) : option BuyAndHold :=
  r0 ← d !! 0%nat;
  let th0 := V0 * Lev in
  Some {| signals := None;
          df := d;
          V_0 := V0;
          L := Lev;
          theta_0 := th0;
          theta := [th0];
          cap_V := [0];
          PnL := [0];
          stock_hold := [th0 / Adj_Close r0] |}.

Definition generate_signals (b : BuyAndHold) : BuyAndHold :=
  let sig := replicate (length (df b)) 1 in
  {| signals := Some {| Signal := sig; Position := diff sig |};
     df := df b; V_0 := V_0 b; L := L b; theta_0 := theta_0 b;
     theta := theta b; cap_V := cap_V b; PnL := PnL b;
     stock_hold := stock_hold b |}.

(** The four [append] calls that end an iteration of [execute_strategy]. *)
Definition append4 (b : BuyAndHold) (cap_V_t theta_t hold_t PnL_t : Q) : BuyAndHold :=
  {| signals := signals b;
     df := df b; V_0 := V_0 b; L := L b; theta_0 := theta_0 b;
     theta := theta b ++ [theta_t];
     cap_V := cap_V b ++ [cap_V_t];
     PnL := PnL b ++ [PnL_t];
     stock_hold := stock_hold b ++ [hold_t] |}.

(** One iteration of the loop of [execute_strategy].  In the last branch
    the four values are assigned and [break] leaves the loop before the
    [append] calls, so the state is returned unchanged. *)
Definition execute_body (i : nat) (b : BuyAndHold) : option (ctl BuyAndHold) :=
  h ← stock_hold b !! (i - 1)%nat;
  r ← df b !! i;
  let theta_t := h * Adj_Close r in
  if decide (theta_0 b < Qabs theta_t) then
    let cap_V_t := Qabs theta_t - theta_0 b in
    let PnL_t := Return_Unit r * theta_t in
    sg ← signals b;
    s ← Signal sg !! i;
    let theta_t' := theta_0 b * s in
    let hold_t := theta_t' / Adj_Close r in
    Some (Next (append4 b cap_V_t theta_t' hold_t PnL_t))
  else if decide (Qabs theta_t <= theta_0 b ∧ theta_0 b - V_0 b < Qabs theta_t) then
    let cap_V_t := 0 in
    hold_t ← last (stock_hold b);
    let PnL_t := Return_Unit r * theta_t in
    Some (Next (append4 b cap_V_t theta_t hold_t PnL_t))
  else
    Some (Break b).

Definition execute_strategy (b : BuyAndHold) : option BuyAndHold :=
  for_loop execute_body (range 1 (length (df b))) b.

Definition run (b : BuyAndHold) : option BuyAndHold :=
  execute_strategy (generate_signals b).

Definition get_signals (b : BuyAndHold) : option (list Q) :=
  sg ← signals b; Some (Signal sg).

(** [lst.extend([0] * (len(self.df) - len(lst)))]: a non-positive count
    gives the empty list, as the truncated subtraction does. *)
Definition extend_zeros (d : DataFrame) (lst : list Q) : list Q :=
  lst ++ replicate (length d - length lst) 0.

Definition with_theta (b : BuyAndHold) (l : list Q) : BuyAndHold :=
  {| signals := signals b; df := df b; V_0 := V_0 b; L := L b;
     theta_0 := theta_0 b; theta := l; cap_V := cap_V b; PnL := PnL b;
     stock_hold := stock_hold b |}.

Definition with_stock_hold (b : BuyAndHold) (l : list Q) : BuyAndHold :=
  {| signals := signals b; df := df b; V_0 := V_0 b; L := L b;
     theta_0 := theta_0 b; theta := theta b; cap_V := cap_V b; PnL := PnL b;
     stock_hold := l |}.

Definition with_cap_V (b : BuyAndHold) (l : list Q) : BuyAndHold :=
  {| signals := signals b; df := df b; V_0 := V_0 b; L := L b;
     theta_0 := theta_0 b; theta := theta b; cap_V := l; PnL := PnL b;
     stock_hold := stock_hold b |}.

Definition with_PnL (b : BuyAndHold) (l : list Q) : BuyAndHold :=
  {| signals := signals b; df := df b; V_0 := V_0 b; L := L b;
     theta_0 := theta_0 b; theta := theta b; cap_V := cap_V b; PnL := l;
     stock_hold := stock_hold b |}.

(** The padding accessors return the new object state and the series. *)
Definition get_theta (b : BuyAndHold) : option (BuyAndHold * list Q) :=
  let b' := with_theta b (extend_zeros (df b) (theta b)) in
  col ← df_assign (df b') (take (length (df b')) (theta b'));
  Some (b', col).

Definition get_stock_hold (b : BuyAndHold) : option (BuyAndHold * list Q) :=
  let b' := with_stock_hold b (extend_zeros (df b) (stock_hold b)) in
  col ← df_assign (df b') (take (length (df b')) (stock_hold b'));
  Some (b', col).

Definition get_cap_V (b : BuyAndHold) : option (BuyAndHold * list Q) :=
  let b' := with_cap_V b (extend_zeros (df b) (cap_V b)) in
  col ← df_assign (df b') (take (length (df b')) (cap_V b'));
  Some (b', col).

Definition get_PnL (b : BuyAndHold) : option (BuyAndHold * list Q) :=
  let b' := with_PnL b (extend_zeros (df b) (PnL b)) in
  col ← df_assign (df b') (take (length (df b')) (PnL b'));
  Some (b', col).

Definition get_cumulative_PnL (b : BuyAndHold) : option (BuyAndHold * list Q) :=
  '(b', pnl) ← get_PnL b;
  Some (b', np_cumsum pnl).

Definition get_V_0 (b : BuyAndHold) : Q := V_0 b.
Definition get_L (b : BuyAndHold) : Q := L b.
Definition get_theta_0 (b : BuyAndHold) : Q := theta_0 b.
Definition get_df (b : BuyAndHold) : DataFrame := df b.

Definition get_turnover_dollars (b : BuyAndHold) : option (BuyAndHold * Series) :=
  '(b', th) ← get_theta b;
  let delta_theta := series_sub th (shift1 th) in
  Some (b', cumsum (series_abs delta_theta)).

Definition get_turnover_unit (b : BuyAndHold) : option (BuyAndHold * Series) :=
  '(b', sh) ← get_stock_hold b;
  let delta_stock_hold := series_sub sh (shift1 sh) in
  Some (b', cumsum (series_abs delta_stock_hold)).

(** One iteration of the loop of [get_cumulative_cap_V]; the loop state is
    the object together with the local list [cap_V_total]. *)
Definition cumulative_body (i : nat) (st : BuyAndHold * list Q)
  : option (ctl (BuyAndHold * list Q)) :=
  let '(b, cap_V_total) := st in
  prev ← cap_V_total !! (i - 1)%nat;
  '(b', col) ← get_cap_V b;
  c ← col !! i;
  r ← df b' !! i;
  Some (Next (b', cap_V_total ++ [(prev + c) * (1 + Daily_Rate r / 100)])).

Definition get_cumulative_cap_V (b : BuyAndHold) : option (BuyAndHold * list Q) :=
  '(b1, col) ← get_cap_V b;
  '(b2, cap_V_total) ← for_loop cumulative_body (range 1 (length col)) (b1, [0]);
  out ← df_assign (df b2) cap_V_total;
  Some (b2, out).

Definition get_delta_cap_V (b : BuyAndHold) : option (BuyAndHold * Series) :=
  '(b1, c1) ← get_cumulative_cap_V b;
  '(b2, c2) ← get_cumulative_cap_V b1;
  Some (b2, series_sub c1 (shift1 c2)).

(** ** Concrete runs *)

Definition flat_prices : DataFrame :=
  [mkRow 100 0 1; mkRow 100 (1 # 100) 1; mkRow 100 (-1 # 100) 1].

Definition crash_prices : DataFrame :=
  [mkRow 100 0 1; mkRow 40 (-6 # 10) 1; mkRow 50 (1 # 4) 1].

Definition rally_prices : DataFrame :=
  [mkRow 100 0 1; mkRow 125 (1 # 4) 2; mkRow 100 (-1 # 5) 2].

(** A caller: construct, then run. *)
Definition simulate (d : DataFrame) (V0 Lev : Q) : option BuyAndHold :=
  b0 ← __init__ d V0 Lev; run b0.

(** Fractions in lowest terms, to display the computed series. *)
Definition reduced (s : list Q) : list Q := Qred <$> s.

Definition reduced_series (s : Series) : Series :=
  (λ o : option Q, Qred <$> o) <$> s.

Close Scope Q_scope.

(** ** Vocabulary of the properties *)

(** [loop_at body start stop s0 i s]: the loop over [range start stop]
    entered with [s0] arrives at the top of iteration [i] (or, for
    [i = stop], at its normal exit) with state [s]. *)
Inductive loop_at {A : Type} (body : nat → A → option (ctl A))
    (start stop : nat) (s0 : A) : nat → A → Prop :=
| loop_at_start : start ≤ stop → loop_at body start stop s0 start s0
| loop_at_next i s s' :
    loop_at body start stop s0 i s → i < stop → body i s = Some (Next s') →
    loop_at body start stop s0 (S i) s'.

(** The three regimes of the trial exposure [theta_t]. *)
Inductive regime : Type := OverExposed | BufferBand | Wipeout.

(** The condition of each regime, as the comments of the loop body
    write it. *)
Definition regime_cond (b : BuyAndHold) (theta_t : Q) (g : regime) : Prop :=
  match g with
  | OverExposed => (theta_0 b < Qabs theta_t)%Q
  | BufferBand => (theta_0 b - V_0 b < Qabs theta_t)%Q ∧ (Qabs theta_t <= theta_0 b)%Q
  | Wipeout => (Qabs theta_t <= theta_0 b - V_0 b)%Q
  end.

(** What each branch of the loop body does at period [i], for the prior
    holding [h] and the row [r] of the period. *)
Definition regime_branch (b : BuyAndHold) (i : nat) (h : Q) (r : Row) (g : regime)
  : option (ctl BuyAndHold) :=
  let theta_t := (h * Adj_Close r)%Q in
  match g with
  | OverExposed =>
      sg ← signals b;
      s ← Signal sg !! i;
      Some (Next (append4 b (Qabs theta_t - theta_0 b) (theta_0 b * s)
                    (theta_0 b * s / Adj_Close r) (Return_Unit r * theta_t)))
  | BufferBand =>
      hold_t ← last (stock_hold b);
      Some (Next (append4 b 0 theta_t hold_t (Return_Unit r * theta_t)))
  | Wipeout => Some (Break b)
  end.

(** All four sequences have [i] elements. *)
Definition aligned (i : nat) (b : BuyAndHold) : Prop :=
  length (theta b) = i ∧ length (cap_V b) = i ∧
  length (stock_hold b) = i ∧ length (PnL b) = i.

(** The configuration, the frame and the signals of [b'] are those of [b]. *)
Definition same_config (b b' : BuyAndHold) : Prop :=
  signals b' = signals b ∧ df b' = df b ∧ V_0 b' = V_0 b ∧
  L b' = L b ∧ theta_0 b' = theta_0 b.

(** The seed elements of [b'] are those of [b]. *)
Definition same_seed (b b' : BuyAndHold) : Prop :=
  theta b' !! 0 = theta b !! 0 ∧ cap_V b' !! 0 = cap_V b !! 0 ∧
  stock_hold b' !! 0 = stock_hold b !! 0 ∧ PnL b' !! 0 = PnL b !! 0.

(** The entries of period [i] in the four sequences of [b] are those the
    over-exposed or the buffer-band branch computes from the holding of
    period [i - 1] and the row of period [i]. *)
Definition recorded (b : BuyAndHold) (i : nat) : Prop :=
  ∃ h r, stock_hold b !! (i - 1) = Some h ∧ df b !! i = Some r ∧
    let theta_t := (h * Adj_Close r)%Q in
    ((theta_0 b < Qabs theta_t)%Q ∧
       ∃ sg s, signals b = Some sg ∧ Signal sg !! i = Some s ∧
         cap_V b !! i = Some (Qabs theta_t - theta_0 b)%Q ∧
         theta b !! i = Some (theta_0 b * s)%Q ∧
         stock_hold b !! i = Some (theta_0 b * s / Adj_Close r)%Q ∧
         PnL b !! i = Some (Return_Unit r * theta_t)%Q)
    ∨ ((Qabs theta_t <= theta_0 b)%Q ∧ (theta_0 b - V_0 b < Qabs theta_t)%Q ∧
         cap_V b !! i = Some 0%Q ∧
         theta b !! i = Some theta_t ∧
         stock_hold b !! i = Some h ∧
         PnL b !! i = Some (Return_Unit r * theta_t)%Q).

(** [s] is [raw] cut or right-padded with zeros to [n] entries. *)
Definition right_padded (n : nat) (raw s : list Q) : Prop :=
  length s = n ∧
  ∀ i, i < n →
    (i < length raw → s !! i = raw !! i) ∧
    (length raw ≤ i → s !! i = Some 0%Q).

(** The balance one iteration of [get_cumulative_cap_V] appends. *)
Definition compounded (prev c : Q) (r : Row) : Q :=
  ((prev + c) * (1 + Daily_Rate r / 100))%Q.

(** An entry that holds a value, and a non-negative one. *)
Definition nonneg_entry (o : option Q) : Prop := ∃ x, o = Some x ∧ (0 <= x)%Q.

(** [t] is a running total over [n] periods: missing at period 0, which
    has no earlier period to differ from, a value at every later period,
    and non-decreasing from period to period. *)
Definition running_total (n : nat) (t : Series) : Prop :=
  length t = n ∧
  (0 < n → t !! 0 = Some None) ∧
  ∀ i j, 1 ≤ i ≤ j → j < n →
    ∃ x y, t !! i = Some (Some x) ∧ t !! j = Some (Some y) ∧ (x <= y)%Q.

(** [c] is the running sum of [s]: as long as [s], equal to it at
    period 0, and each later entry is the one before plus the entry of
    [s] at that period. *)
Definition running_sum_of (s c : list Q) : Prop :=
  length c = length s ∧
  c !! 0 = s !! 0 ∧
  ∀ i x v, c !! i = Some x → s !! S i = Some v → c !! S i = Some (x + v)%Q.

(** [t] accumulates the absolute period-over-period changes of [l]. *)
Definition accumulates_changes (l : list Q) (t : Series) : Prop :=
  ∀ i a c, l !! i = Some a → l !! S i = Some c →
    match i with
    | 0 => t !! 1 = Some (Some (Qabs (c - a)))
    | S _ => ∃ x, t !! i = Some (Some x) ∧ t !! S i = Some (Some (x + Qabs (c - a))%Q)
    end.

(** [dl] is the first difference of [tot]: missing at period 0, the
    change from the period before at every later period. *)
Definition first_difference (tot : list Q) (dl : Series) : Prop :=
  length dl = length tot ∧
  (0 < length tot → dl !! 0 = Some None) ∧
  ∀ i x y, tot !! i = Some x → tot !! S i = Some y →
    dl !! S i = Some (Some (y - x)%Q).

(** * Properties *)

(** Rational arithmetic stays folded in goals. *)
#[local] Arguments Qabs : simpl never.
#[local] Arguments Qplus : simpl never.
#[local] Arguments Qminus : simpl never.
#[local] Arguments Qmult : simpl never.
#[local] Arguments Qdiv : simpl never.
#[local] Arguments Qopp : simpl never.
#[local] Arguments Qinv : simpl never.

(** ** The [for] loop: the points a run goes through *)

Section ForLoopFacts.
Context {A : Type}.
Variable body : nat → A → option (ctl A).
Variables (start stop : nat) (s0 : A).

Lemma loop_at_bounds i s : loop_at body start stop s0 i s → start ≤ i ≤ stop.
Proof. induction 1; lia. Qed.

(** What the loop returns is the state of the last point it went
    through: the normal exit, or the iteration that ran [break]. *)
Lemma for_loop_from i m s sf :
  loop_at body start stop s0 i s → (i + m)%nat = stop →
  for_loop body (seq i m) s = Some sf →
  loop_at body start stop s0 stop sf
  ∨ ∃ k sk, k < stop ∧ loop_at body start stop s0 k sk ∧ body k sk = Some (Break sf).
Proof.
  revert i s. induction m as [|m IH]; intros i s Hat Hstop Hrun; simpl in Hrun.
  - left. assert (i = stop) as -> by lia. congruence.
  - destruct (body i s) as [[s'|s']|] eqn:Hb; [| |discriminate].
    + apply (IH (S i) s'); [|lia|exact Hrun].
      apply (loop_at_next body start stop s0 i s); [exact Hat|lia|exact Hb].
    + right. exists i, s. split; [lia|]. split; [exact Hat|]. congruence.
Qed.

Lemma for_loop_outcome sf :
  start ≤ stop →
  for_loop body (range start stop) s0 = Some sf →
  loop_at body start stop s0 stop sf
  ∨ ∃ k sk, k < stop ∧ loop_at body start stop s0 k sk ∧ body k sk = Some (Break sf).
Proof.
  intros Hle. apply for_loop_from; [by constructor|lia].
Qed.

(** Conversely the loop returns, with the state of the point where it
    leaves. *)
Lemma for_loop_resume i s sf :
  loop_at body start stop s0 i s →
  for_loop body (seq i (stop - i)) s = Some sf →
  for_loop body (range start stop) s0 = Some sf.
Proof.
  unfold range. induction 1 as [|i s s' Hat IH Hlt Hb]; intros Hrun; [exact Hrun|].
  apply IH. replace (stop - i)%nat with (S (stop - S i)) by lia.
  simpl. rewrite Hb. exact Hrun.
Qed.

Lemma for_loop_exit sf :
  loop_at body start stop s0 stop sf →
  for_loop body (range start stop) s0 = Some sf.
Proof.
  intros Hat. apply (for_loop_resume stop sf sf Hat).
  by replace (stop - stop)%nat with 0%nat by lia.
Qed.

Lemma for_loop_break k sk sf :
  loop_at body start stop s0 k sk → k < stop → body k sk = Some (Break sf) →
  for_loop body (range start stop) s0 = Some sf.
Proof.
  intros Hat Hlt Hb. apply (for_loop_resume k sk sf Hat).
  replace (stop - k)%nat with (S (stop - S k)) by lia.
  simpl. by rewrite Hb.
Qed.

(** A loop whose body succeeds at every point it goes through returns. *)
Lemma for_loop_total :
  start ≤ stop →
  (∀ i s, loop_at body start stop s0 i s → i < stop → is_Some (body i s)) →
  is_Some (for_loop body (range start stop) s0).
Proof.
  intros Hle Hbody. unfold range.
  assert (Hgen : ∀ m i s, loop_at body start stop s0 i s → (i + m)%nat = stop →
                          is_Some (for_loop body (seq i m) s)).
  { induction m as [|m IH]; intros i s Hat Hstop; simpl; [by eexists|].
    destruct (Hbody i s Hat) as [[s'|s'] Hb]; [lia| |]; rewrite Hb.
    - apply IH; [|lia].
      apply (loop_at_next body start stop s0 i s); [exact Hat|lia|exact Hb].
    - by eexists. }
  apply Hgen; [by constructor|lia].
Qed.
End ForLoopFacts.

(** ** One iteration of [execute_strategy] *)

Lemma regime_total (b : BuyAndHold) (theta_t : Q) : ∃ g, regime_cond b theta_t g.
Proof.
  destruct (Qlt_le_dec (theta_0 b) (Qabs theta_t)) as [Hover | Hle].
  - by exists OverExposed.
  - destruct (Qlt_le_dec (theta_0 b - V_0 b) (Qabs theta_t)) as [Hin | Hout].
    + by exists BufferBand.
    + by exists Wipeout.
Qed.

Lemma regime_exclusive (b : BuyAndHold) (theta_t : Q) (g g' : regime) :
  (0 <= V_0 b)%Q → regime_cond b theta_t g → regime_cond b theta_t g' → g = g'.
Proof.
  intros HV. destruct g, g'; simpl; intros H H'; try reflexivity; exfalso; lra.
Qed.

(** The tests of the body select the branch from the regime condition;
    the first two need no assumption on [V_0]. *)
Lemma execute_body_over (b : BuyAndHold) i h r :
  stock_hold b !! (i - 1) = Some h → df b !! i = Some r →
  (theta_0 b < Qabs (h * Adj_Close r))%Q →
  execute_body i b = regime_branch b i h r OverExposed.
Proof.
  intros Hh Hr Hc. unfold execute_body. rewrite Hh, Hr. simpl.
  destruct (decide _) as [_ | Hn]; [reflexivity | contradiction].
Qed.

Lemma execute_body_band (b : BuyAndHold) i h r :
  stock_hold b !! (i - 1) = Some h → df b !! i = Some r →
  (theta_0 b - V_0 b < Qabs (h * Adj_Close r))%Q →
  (Qabs (h * Adj_Close r) <= theta_0 b)%Q →
  execute_body i b = regime_branch b i h r BufferBand.
Proof.
  intros Hh Hr Hlo Hhi. unfold execute_body. rewrite Hh, Hr. simpl.
  destruct (decide (theta_0 b < _)%Q) as [Hover | _]; [exfalso; lra|].
  destruct (decide _) as [_ | Hn]; [reflexivity | tauto].
Qed.

Lemma execute_body_wipeout (b : BuyAndHold) i h r :
  stock_hold b !! (i - 1) = Some h → df b !! i = Some r →
  (0 <= V_0 b)%Q →
  (Qabs (h * Adj_Close r) <= theta_0 b - V_0 b)%Q →
  execute_body i b = regime_branch b i h r Wipeout.
Proof.
  intros Hh Hr HV Hc. unfold execute_body. rewrite Hh, Hr. simpl.
  destruct (decide (theta_0 b < _)%Q) as [Hover | _]; [exfalso; lra|].
  destruct (decide _) as [[_ Hin] | _]; [exfalso; lra | reflexivity].
Qed.

(** Every result of the body, read backwards. *)
Lemma execute_body_cases (b : BuyAndHold) i out :
  execute_body i b = Some out →
  ∃ h r, stock_hold b !! (i - 1) = Some h ∧ df b !! i = Some r ∧
    let theta_t := (h * Adj_Close r)%Q in
    ((theta_0 b < Qabs theta_t)%Q ∧
       ∃ sg s, signals b = Some sg ∧ Signal sg !! i = Some s ∧
         out = Next (append4 b (Qabs theta_t - theta_0 b) (theta_0 b * s)
                       (theta_0 b * s / Adj_Close r) (Return_Unit r * theta_t)))
    ∨ ((Qabs theta_t <= theta_0 b)%Q ∧ (theta_0 b - V_0 b < Qabs theta_t)%Q ∧
       ∃ hold_t, last (stock_hold b) = Some hold_t ∧
         out = Next (append4 b 0 theta_t hold_t (Return_Unit r * theta_t)))
    ∨ (¬ (theta_0 b < Qabs theta_t)%Q ∧
       ¬ ((Qabs theta_t <= theta_0 b)%Q ∧ (theta_0 b - V_0 b < Qabs theta_t)%Q) ∧
       out = Break b).
Proof.
  unfold execute_body. intros Hrun.
  destruct (stock_hold b !! (i - 1)) as [h|] eqn:Hh; [|discriminate].
  destruct (df b !! i) as [r|] eqn:Hr; [|discriminate].
  simpl in Hrun. exists h, r. split; [reflexivity|]. split; [reflexivity|].
  destruct (decide (theta_0 b < _)%Q) as [Hover | Hnover].
  - left. split; [exact Hover|].
    destruct (signals b) as [sg|]; [|discriminate]. simpl in Hrun.
    destruct (Signal sg !! i) as [s|] eqn:Hs; [|discriminate]. simpl in Hrun.
    exists sg, s. repeat split; [exact Hs | congruence].
  - destruct (decide _) as [[Hhi Hlo] | Hnband].
    + right; left. split; [exact Hhi|]. split; [exact Hlo|].
      destruct (last (stock_hold b)) as [hl|]; [|discriminate]. simpl in Hrun.
      exists hl. split; [reflexivity | congruence].
    + right; right. split; [exact Hnover|]. split; [exact Hnband | congruence].
Qed.

Lemma execute_body_Next (b b' : BuyAndHold) i :
  execute_body i b = Some (Next b') →
  ∃ cap_V_t theta_t hold_t PnL_t, b' = append4 b cap_V_t theta_t hold_t PnL_t.
Proof.
  intros Hrun. apply execute_body_cases in Hrun as (h & r & _ & _ & Hcase).
  destruct Hcase as [(_ & sg & s & _ & _ & Hout) | [(_ & _ & hl & _ & Hout) | (_ & _ & Hout)]].
  - injection Hout as ->. eauto.
  - injection Hout as ->. eauto.
  - discriminate.
Qed.

Lemma execute_body_Break (b b' : BuyAndHold) i :
  execute_body i b = Some (Break b') → b' = b.
Proof.
  intros Hrun. apply execute_body_cases in Hrun as (h & r & _ & _ & Hcase).
  destruct Hcase as [(_ & sg & s & _ & _ & Hout) | [(_ & _ & hl & _ & Hout) | (_ & _ & Hout)]].
  - discriminate.
  - discriminate.
  - congruence.
Qed.

(** ** The run of [execute_strategy], point by point *)

Lemma aligned_append4 i b c t h p : aligned i b → aligned (S i) (append4 b c t h p).
Proof.
  intros (Ht & Hc & Hs & Hp). unfold aligned, append4; simpl.
  rewrite !length_app; simpl. lia.
Qed.

Lemma same_config_append4 b c t h p : same_config b (append4 b c t h p).
Proof. by repeat split. Qed.

Lemma same_config_trans b1 b2 b3 :
  same_config b1 b2 → same_config b2 b3 → same_config b1 b3.
Proof. unfold same_config. intros (?&?&?&?&?) (?&?&?&?&?). repeat split; congruence. Qed.

Lemma aligned_last i b : aligned i b → last (stock_hold b) = stock_hold b !! (i - 1).
Proof.
  intros (_ & _ & Hs & _). rewrite last_lookup, Hs. by replace (pred i) with (i - 1) by lia.
Qed.

(** An entry below the common length is not touched by the appends. *)
Lemma append4_lookup i j b c t h p :
  aligned j b → i < j →
  theta (append4 b c t h p) !! i = theta b !! i ∧
  cap_V (append4 b c t h p) !! i = cap_V b !! i ∧
  stock_hold (append4 b c t h p) !! i = stock_hold b !! i ∧
  PnL (append4 b c t h p) !! i = PnL b !! i.
Proof.
  intros (Ht & Hc & Hs & Hp) Hlt. simpl.
  repeat split; apply lookup_app_l; lia.
Qed.

(** The appended entries sit at the common length. *)
Lemma append4_lookup_new j b c t h p :
  aligned j b →
  theta (append4 b c t h p) !! j = Some t ∧
  cap_V (append4 b c t h p) !! j = Some c ∧
  stock_hold (append4 b c t h p) !! j = Some h ∧
  PnL (append4 b c t h p) !! j = Some p.
Proof.
  intros (Ht & Hc & Hs & Hp). simpl.
  repeat split; rewrite lookup_app_r by lia;
    match goal with |- [_] !! ?k = _ => by replace k with 0 by lia end.
Qed.

Lemma recorded_append4 i j b c t h p :
  aligned j b → 1 ≤ i < j → recorded b i → recorded (append4 b c t h p) i.
Proof.
  intros Hal Hij (h0 & r & Hh & Hr & Hcase).
  destruct (append4_lookup i j b c t h p Hal) as (Et & Ec & Es & Ep); [lia|].
  destruct (append4_lookup (i - 1) j b c t h p Hal) as (_ & _ & Es' & _); [lia|].
  exists h0, r. rewrite Es', Et, Ec, Es, Ep. by repeat split.
Qed.

(** The appends of one iteration keep what holds of the earlier periods. *)
Lemma append4_invariant (b0 b : BuyAndHold) (j : nat) c t h p :
  1 ≤ j → aligned j b → same_config b0 b → same_seed b0 b →
  (∀ i, 1 ≤ i < j → recorded b i) →
  recorded (append4 b c t h p) j →
  aligned (S j) (append4 b c t h p) ∧ same_config b0 (append4 b c t h p) ∧
  same_seed b0 (append4 b c t h p) ∧
  ∀ i, 1 ≤ i < S j → recorded (append4 b c t h p) i.
Proof.
  intros Hj Hal Hcfg Hseed Hrec Hnew.
  split; [by apply aligned_append4|].
  split; [apply (same_config_trans _ b); [exact Hcfg | apply same_config_append4]|].
  split.
  - destruct (append4_lookup 0 j b c t h p Hal) as (Et & Ec & Es & Ep); [lia|].
    destruct Hseed as (?&?&?&?). unfold same_seed. rewrite Et, Ec, Es, Ep. by repeat split.
  - intros i Hi. destruct (decide (i = j)) as [-> | Hne]; [exact Hnew|].
    apply (recorded_append4 i j); [exact Hal | lia | apply Hrec; lia].
Qed.

(** The invariant of the loop.  Entered with one element in each
    sequence, the loop arrives at iteration [j] with [j] elements in
    each, the configuration and the seed untouched, and every period
    before [j] recorded. *)
Lemma execute_invariant (b0 b : BuyAndHold) (j : nat) :
  aligned 1 b0 →
  loop_at execute_body 1 (length (df b0)) b0 j b →
  aligned j b ∧ same_config b0 b ∧ same_seed b0 b ∧
  ∀ i, 1 ≤ i < j → recorded b i.
Proof.
  intros Hal0. induction 1 as [Hle | j b b' Hat IH Hlt Hb].
  - split; [exact Hal0|]. split; [by repeat split|]. split; [by repeat split|].
    intros i Hi. lia.
  - destruct IH as (Hal & Hcfg & Hseed & Hrec).
    pose proof (loop_at_bounds _ _ _ _ _ _ Hat) as [Hj1 _].
    apply execute_body_cases in Hb as (h0 & r & Hh & Hr & Hcase).
    destruct Hcase as [(Hover & sg & s & Hsg & Hs & Hout)
                      | [(Hhi & Hlo & hl & Hlast & Hout) | (_ & _ & Hout)]];
      [| |discriminate]; injection Hout as ->;
      (apply append4_invariant; [exact Hj1 | exact Hal | exact Hcfg | exact Hseed | exact Hrec |]);
      match goal with |- recorded (append4 _ ?c ?t ?h ?p) _ =>
        destruct (append4_lookup (j - 1) j b c t h p Hal) as (_ & _ & Es' & _); [lia|];
        destruct (append4_lookup_new j b c t h p Hal) as (Et & Ec & Es & Ep)
      end;
      exists h0, r; (split; [by rewrite Es'|]); (split; [exact Hr|]).
    + left. split; [exact Hover|]. exists sg, s. by repeat split.
    + right. split; [exact Hhi|]. split; [exact Hlo|].
      rewrite (aligned_last j b Hal), Hh in Hlast. injection Hlast as ->.
      by repeat split.
Qed.

(** Within that invariant the body cannot fail once the signals are
    generated. *)
Lemma execute_body_defined (b : BuyAndHold) (i : nat) (sg : Signals) :
  aligned i b → 1 ≤ i → i < length (df b) →
  signals b = Some sg → length (Signal sg) = length (df b) →
  is_Some (execute_body i b).
Proof.
  intros Hal Hi Hlt Hsg Hlen.
  destruct (lookup_lt_is_Some_2 (stock_hold b) (i - 1)) as [h Hh].
  { destruct Hal as (_ & _ & Hs & _). lia. }
  destruct (lookup_lt_is_Some_2 (df b) i Hlt) as [r Hr].
  destruct (lookup_lt_is_Some_2 (Signal sg) i) as [s Hs]; [lia|].
  unfold execute_body. rewrite Hh, Hr. simpl.
  destruct (decide _) as [_|_].
  - rewrite Hsg. simpl. rewrite Hs. simpl. by eexists.
  - destruct (decide _) as [_|_]; [|by eexists].
    rewrite (aligned_last i b Hal), Hh. simpl. by eexists.
Qed.

(** The state a constructor call leaves. *)
Lemma init_inv (d : DataFrame) (V0 Lev : Q) (b0 : BuyAndHold) :
  __init__ d V0 Lev = Some b0 →
  ∃ r0, d !! 0 = Some r0 ∧
    b0 = {| signals := None; df := d; V_0 := V0; L := Lev;
            theta_0 := (V0 * Lev)%Q; theta := [(V0 * Lev)%Q];
            cap_V := [0%Q]; PnL := [0%Q];
            stock_hold := [(V0 * Lev / Adj_Close r0)%Q] |}.
Proof.
  unfold __init__. destruct (d !! 0) as [r0|]; [|discriminate].
  simpl. intros [= <-]. by exists r0.
Qed.

Lemma init_aligned (d : DataFrame) (V0 Lev : Q) (b0 : BuyAndHold) :
  __init__ d V0 Lev = Some b0 → aligned 1 b0 ∧ df b0 = d ∧ 1 ≤ length d.
Proof.
  intros Hinit. destruct (init_inv _ _ _ _ Hinit) as (r0 & Hr0 & ->).
  split; [by repeat split|]. split; [reflexivity|].
  apply lookup_lt_Some in Hr0. lia.
Qed.

(** [run] returns for every constructed object. *)
Lemma run_total (d : DataFrame) (V0 Lev : Q) (b0 : BuyAndHold) :
  __init__ d V0 Lev = Some b0 → is_Some (run b0).
Proof.
  intros Hinit. destruct (init_aligned _ _ _ _ Hinit) as (Hal & Hdf & Hlen).
  unfold run, execute_strategy.
  apply for_loop_total; [simpl; rewrite Hdf; exact Hlen|].
  intros i b Hat Hlt.
  destruct (execute_invariant (generate_signals b0) b i) as (Hali & Hcfg & _ & _);
    [exact Hal | exact Hat |].
  destruct Hcfg as (Hsg & Hd & _).
  pose proof (loop_at_bounds _ _ _ _ _ _ Hat) as [Hi1 _].
  eapply execute_body_defined; [exact Hali | exact Hi1 | by rewrite Hd | exact Hsg |].
  simpl. by rewrite length_replicate, Hd.
Qed.

(** Where a run from a constructed object ends: at the normal exit of
    the loop, or at the iteration whose body ran [break]. *)
Lemma run_final (d : DataFrame) (V0 Lev : Q) (b0 bf : BuyAndHold) :
  __init__ d V0 Lev = Some b0 → run b0 = Some bf →
  ∃ j, loop_at execute_body 1 (length d) (generate_signals b0) j bf ∧
       (j = length d ∨ (j < length d ∧ execute_body j bf = Some (Break bf))).
Proof.
  intros Hinit Hrun. destruct (init_aligned _ _ _ _ Hinit) as (Hal & Hdf & Hlen).
  unfold run, execute_strategy in Hrun. simpl in Hrun. rewrite Hdf in Hrun.
  apply for_loop_outcome in Hrun as [Hexit | (k & bk & Hk & Hat & Hb)]; [| |exact Hlen].
  - exists (length d). split; [exact Hexit | by left].
  - pose proof (execute_body_Break _ _ _ Hb) as ->.
    exists k. split; [exact Hat | right; by split].
Qed.

(** A wipeout at period [k] ends the run with the state the loop had on
    entering period [k]: nothing is appended for that period, and each
    sequence keeps [k] elements. *)
Lemma wipeout_halts (d : DataFrame) (V0 Lev : Q) (b0 b : BuyAndHold) (k : nat) (h : Q) (r : Row) :
  __init__ d V0 Lev = Some b0 →
  loop_at execute_body 1 (length d) (generate_signals b0) k b →
  stock_hold b !! (k - 1) = Some h → d !! k = Some r →
  (0 <= V0)%Q →
  (Qabs (h * Adj_Close r) <= theta_0 b - V_0 b)%Q →
  run b0 = Some b ∧ aligned k b.
Proof.
  intros Hinit Hat Hh Hr HV Hw.
  destruct (init_aligned _ _ _ _ Hinit) as (Hal & Hdf & Hlen).
  destruct (init_inv _ _ _ _ Hinit) as (r0 & _ & Eb0).
  assert (Hat' : loop_at execute_body 1 (length (df (generate_signals b0)))
                   (generate_signals b0) k b) by (simpl; by rewrite Hdf).
  destruct (execute_invariant (generate_signals b0) b k Hal Hat') as (Halk & Hcfg & _ & _).
  destruct Hcfg as (_ & Hd & HV0 & _ & _). simpl in Hd, HV0. rewrite Hdf in Hd.
  split; [|exact Halk].
  unfold run, execute_strategy.
  apply (for_loop_break _ _ _ _ k b b Hat').
  - apply lookup_lt_Some in Hr. simpl. by rewrite Hdf.
  - rewrite (execute_body_wipeout b k h r); [reflexivity | exact Hh | by rewrite Hd | | exact Hw].
    rewrite HV0, Eb0. exact HV.
Qed.

(** ** The claims *)

(** C1.  On the prices 100, 40, 50 with [V_0 = 1000] and [L = 2] the
    wipeout regime fires at period 1 (trial exposure 800, at most
    [theta_0 - V_0 = 1000]).  The run halts there; the four raw
    sequences keep the seed alone, one element and not two, and the
    padded capital series is zero at period 1, not [800 - 2000]. *)
Theorem wipeout_period_not_appended :
  ∃ b0 bf h r,
    __init__ crash_prices 1000 2 = Some b0 ∧
    stock_hold b0 !! 0 = Some h ∧ crash_prices !! 1 = Some r ∧
    regime_cond b0 (h * Adj_Close r) Wipeout ∧
    (Qabs (h * Adj_Close r) - theta_0 b0 == -1200)%Q ∧
    run b0 = Some bf ∧
    length (theta bf) = 1 ∧ length (cap_V bf) = 1 ∧
    length (stock_hold bf) = 1 ∧ length (PnL bf) = 1 ∧
    snd <$> get_cap_V bf = Some [0; 0; 0]%Q.
Proof.
  eexists _, _, _, _.
  split; [reflexivity|]. split; [reflexivity|]. split; [reflexivity|].
  split; [by vm_compute|]. split; [by vm_compute|].
  split; [by vm_compute|]. by repeat split.
Qed.

(** C2.  In a run from a constructed object, a period [i] that the run
    reached with a trial exposure [theta_t = stock_hold[i-1] * price[i]]
    above [theta_0] in absolute value has the entries
    [cap_V[i] = |theta_t| - theta_0], [PnL[i] = return[i] * theta_t],
    [theta[i] = theta_0 * signal[i]] with [signal[i] = 1], and
    [stock_hold[i] = theta[i] / price[i]]. *)
Theorem over_exposed_values (d : DataFrame) (V0 Lev : Q) (b0 bf : BuyAndHold)
    (i : nat) (h : Q) (r : Row) :
  __init__ d V0 Lev = Some b0 → run b0 = Some bf →
  1 ≤ i ≤ length (theta bf) →
  stock_hold bf !! (i - 1) = Some h → d !! i = Some r →
  (theta_0 bf < Qabs (h * Adj_Close r))%Q →
  ∃ sg th_i,
    signals bf = Some sg ∧ Signal sg !! i = Some 1%Q ∧
    theta_0 bf = (V0 * Lev)%Q ∧
    cap_V bf !! i = Some (Qabs (h * Adj_Close r) - theta_0 bf)%Q ∧
    PnL bf !! i = Some (Return_Unit r * (h * Adj_Close r))%Q ∧
    th_i = (theta_0 bf * 1)%Q ∧
    theta bf !! i = Some th_i ∧
    stock_hold bf !! i = Some (th_i / Adj_Close r)%Q.
Proof.
  intros Hinit Hrun Hi Hh Hr Hover.
  destruct (init_aligned _ _ _ _ Hinit) as (Hal & Hdf & Hlen).
  destruct (init_inv _ _ _ _ Hinit) as (r0 & _ & Eb0).
  destruct (run_final _ _ _ _ _ Hinit Hrun) as (j & Hat & Hend).
  assert (Hat' : loop_at execute_body 1 (length (df (generate_signals b0)))
                   (generate_signals b0) j bf) by (simpl; by rewrite Hdf).
  destruct (execute_invariant (generate_signals b0) bf j Hal Hat')
    as (Halj & Hcfg & _ & Hrec).
  destruct Hcfg as (Hsg & Hd & _ & _ & Hth). simpl in Hsg, Hd, Hth. rewrite Hdf in Hd.
  assert (Hlen_j : length (theta bf) = j) by apply Halj.
  assert (Hij : i < j).
  { destruct (decide (i < j)) as [|Hge]; [assumption|]. exfalso.
    assert (i = j) as -> by lia.
    destruct Hend as [-> | (_ & Hbrk)].
    - apply lookup_lt_Some in Hr. lia.
    - rewrite (execute_body_over bf j h r Hh) in Hbrk; [|by rewrite Hd | exact Hover].
      simpl in Hbrk. rewrite Hsg in Hbrk. simpl in Hbrk.
      destruct (replicate _ _ !! j); discriminate. }
  destruct (Hrec i) as (h' & r' & Hh' & Hr' & Hcase); [lia|].
  rewrite Hh in Hh'. injection Hh' as <-.
  rewrite Hd, Hr in Hr'. injection Hr' as <-.
  destruct Hcase as [(_ & sg & s & Hsg' & Hs & Hc & Ht & Hs' & Hp) | (Hle & _)];
    [|exfalso; lra].
  exists sg, (theta_0 bf * 1)%Q.
  assert (s = 1%Q) as ->.
  { rewrite Hsg in Hsg'. injection Hsg' as <-. simpl in Hs.
    apply lookup_replicate in Hs. by destruct Hs. }
  split; [exact Hsg'|]. split; [exact Hs|].
  split; [by rewrite Hth, Eb0|]. by repeat split.
Qed.

Lemma over_exposed_values_witness :
  let h := (1000 * 1 / 100)%Q in
  ∃ b0 bf,
    __init__ rally_prices 1000 1 = Some b0 ∧ run b0 = Some bf ∧
    stock_hold bf !! 0 = Some h ∧
    (theta_0 bf < Qabs (h * 125))%Q ∧
    ∃ sg th_i,
      signals bf = Some sg ∧ Signal sg !! 1 = Some 1%Q ∧
      theta_0 bf = (1000 * 1)%Q ∧
      cap_V bf !! 1 = Some (Qabs (h * 125) - theta_0 bf)%Q ∧
      PnL bf !! 1 = Some ((1 # 4) * (h * 125))%Q ∧
      th_i = (theta_0 bf * 1)%Q ∧
      theta bf !! 1 = Some th_i ∧
      stock_hold bf !! 1 = Some (th_i / 125)%Q.
Proof.
  intros h. eexists _, _.
  split; [reflexivity|]. split; [by vm_compute|].
  split; [by vm_compute|]. split; [by vm_compute|].
  eapply (over_exposed_values rally_prices 1000 1 _ _ 1 h (mkRow 125 (1 # 4) 2)).
  - reflexivity.
  - by vm_compute.
  - simpl. lia.
  - by vm_compute.
  - reflexivity.
  - by vm_compute.
Defined.

(** C3.  For a period with prior holding [h] and row [r], and
    [V_0 > 0], exactly one of the three regime conditions holds of the
    trial exposure [h * price]; the body takes the branch of the regime
    whose condition holds; an exposure equal to [theta_0] in absolute
    value is in the buffer band, and one equal to [theta_0 - V_0] is a
    wipeout. *)
Theorem regime_selection (b : BuyAndHold) (i : nat) (h : Q) (r : Row) :
  (0 < V_0 b)%Q →
  stock_hold b !! (i - 1) = Some h → df b !! i = Some r →
  let theta_t := (h * Adj_Close r)%Q in
  (∃ g, regime_cond b theta_t g ∧ ∀ g', regime_cond b theta_t g' → g' = g) ∧
  (∀ g, regime_cond b theta_t g → execute_body i b = regime_branch b i h r g) ∧
  ((Qabs theta_t == theta_0 b)%Q → regime_cond b theta_t BufferBand) ∧
  ((Qabs theta_t == theta_0 b - V_0 b)%Q → regime_cond b theta_t Wipeout).
Proof.
  intros HV Hh Hr theta_t.
  assert (HV' : (0 <= V_0 b)%Q) by lra.
  split; [|split; [|split]].
  - destruct (regime_total b theta_t) as [g Hg]. exists g. split; [exact Hg|].
    intros g' Hg'. by apply (regime_exclusive b theta_t).
  - intros [] Hg; simpl in Hg.
    + by apply execute_body_over.
    + destruct Hg as [Hlo Hhi]. by apply execute_body_band.
    + by apply execute_body_wipeout.
  - intros Heq. simpl. lra.
  - intros Heq. simpl. lra.
Qed.

Lemma regime_selection_witness :
  ∃ b0, __init__ flat_prices 1000 1 = Some b0 ∧
    let h := (1000 * 1 / 100)%Q in
    let theta_t := (h * 100)%Q in
    (∃ g, regime_cond b0 theta_t g ∧ ∀ g', regime_cond b0 theta_t g' → g' = g) ∧
    (∀ g, regime_cond b0 theta_t g →
          execute_body 1 b0 = regime_branch b0 1 h (mkRow 100 (1 # 100) 1) g) ∧
    ((Qabs theta_t == theta_0 b0)%Q → regime_cond b0 theta_t BufferBand) ∧
    ((Qabs theta_t == theta_0 b0 - V_0 b0)%Q → regime_cond b0 theta_t Wipeout).
Proof.
  eexists. split; [reflexivity|].
  apply (regime_selection _ 1 (1000 * 1 / 100)%Q (mkRow 100 (1 # 100) 1)).
  - by vm_compute.
  - by vm_compute.
  - reflexivity.
Defined.

(** C4, as stated, fails: the constructor checks nothing.  A negative
    investment, a negative leverage and a negative seed price are each
    accepted, the seed state is there to read and the run goes on. *)
Lemma invalid_configuration_accepted :
  ¬ (∀ (d : DataFrame) (V0 Lev : Q) (r0 : Row),
       d !! 0 = Some r0 →
       (V0 <= 0)%Q ∨ (Lev <= 0)%Q ∨ (Adj_Close r0 <= 0)%Q →
       __init__ d V0 Lev = None)
  ∧ (∃ b0 bf, __init__ flat_prices (-1000) 1 = Some b0 ∧
              theta b0 = [(-1000 * 1)%Q] ∧ run b0 = Some bf)
  ∧ (∃ b0 bf, __init__ flat_prices 1000 (-2) = Some b0 ∧
              theta b0 = [(1000 * -2)%Q] ∧ run b0 = Some bf)
  ∧ (∃ b0 bf, __init__ [mkRow (-5) 0 0; mkRow 5 0 0] 1000 1 = Some b0 ∧
              stock_hold b0 = [(1000 * 1 / -5)%Q] ∧ run b0 = Some bf).
Proof.
  split; [|split; [|split]].
  - intros Hclaim.
    specialize (Hclaim flat_prices (-1000)%Q 1%Q (mkRow 100 0 1) eq_refl).
    discriminate Hclaim. left. by vm_compute.
  - eexists _, _. split; [reflexivity|]. split; [reflexivity | by vm_compute].
  - eexists _, _. split; [reflexivity|]. split; [reflexivity | by vm_compute].
  - eexists _, _. split; [reflexivity|]. split; [reflexivity | by vm_compute].
Qed.

(** C4, amended.  Construction validates nothing: whatever the values
    of [V_0] and [L] and whatever the seed price, it succeeds on a frame
    with at least one row, seeds each sequence with one element and
    stores the configuration as given, and the run then returns; it
    fails only on a frame without rows, where the seed price cannot be
    read. *)
Theorem init_accepts_any_configuration (r0 : Row) (rest : DataFrame) (V0 Lev : Q) :
  (∃ b0, __init__ (r0 :: rest) V0 Lev = Some b0 ∧
         V_0 b0 = V0 ∧ L b0 = Lev ∧ theta_0 b0 = (V0 * Lev)%Q ∧
         theta b0 = [(V0 * Lev)%Q] ∧ cap_V b0 = [0%Q] ∧ PnL b0 = [0%Q] ∧
         length (stock_hold b0) = 1 ∧
         is_Some (run b0))
  ∧ __init__ [] V0 Lev = None.
Proof.
  split; [|reflexivity].
  eexists. split; [reflexivity|]. repeat (split; [reflexivity|]).
  by apply (run_total (r0 :: rest) V0 Lev).
Qed.

(** C5.  At every point of a run from a constructed object the four
    sequences have the same length, the index of the iteration; the
    last holding is the holding of the period before; and from every
    point the run either appends one element to each sequence and moves
    to the next iteration, or halts on [break] with the sequences as
    they are, or has gone through all the periods. *)
Theorem sequences_grow_together (d : DataFrame) (V0 Lev : Q) (b0 b : BuyAndHold) (i : nat) :
  __init__ d V0 Lev = Some b0 →
  loop_at execute_body 1 (length d) (generate_signals b0) i b →
  length (theta b) = i ∧ length (cap_V b) = i ∧
  length (stock_hold b) = i ∧ length (PnL b) = i ∧
  last (stock_hold b) = stock_hold b !! (i - 1) ∧
  ((i < length d ∧
      ∃ b', execute_body i b = Some (Next b') ∧ aligned (S i) b' ∧
            loop_at execute_body 1 (length d) (generate_signals b0) (S i) b')
   ∨ (i < length d ∧ execute_body i b = Some (Break b) ∧ run b0 = Some b)
   ∨ (i = length d ∧ run b0 = Some b)).
Proof.
  intros Hinit Hat.
  destruct (init_aligned _ _ _ _ Hinit) as (Hal & Hdf & Hlen). subst d.
  change (length (df b0)) with (length (df (generate_signals b0))) in Hat.
  destruct (execute_invariant (generate_signals b0) b i Hal Hat)
    as (Hali & Hcfg & _ & _).
  pose proof Hali as (Ht & Hc & Hs & Hp).
  repeat (split; [assumption|]).
  split; [by apply aligned_last|].
  pose proof (loop_at_bounds _ _ _ _ _ _ Hat) as [Hi1 Hin].
  destruct Hcfg as (Hsg & Hd & _). simpl in Hsg, Hd.
  destruct (decide (i = length (df b0))) as [Heq | Hne].
  - right; right. split; [exact Heq|].
    unfold run, execute_strategy. apply for_loop_exit.
    by rewrite Heq in Hat.
  - assert (Hlt : i < length (df b0)) by (simpl in Hin; lia).
    destruct (execute_body_defined b i _ Hali Hi1 ltac:(by rewrite Hd) Hsg)
      as [[b'|b'] Hb]; [simpl; by rewrite length_replicate, Hd | |].
    + left. split; [exact Hlt|]. exists b'. split; [exact Hb|].
      destruct (execute_body_Next _ _ _ Hb) as (c & t & h & p & ->).
      split; [by apply aligned_append4|].
      by apply (loop_at_next _ _ _ _ i b).
    + right; left. pose proof (execute_body_Break _ _ _ Hb) as ->.
      split; [exact Hlt|]. split; [exact Hb|].
      unfold run, execute_strategy. by apply (for_loop_break _ _ _ _ i b b Hat).
Qed.

Lemma sequences_grow_together_witness :
  ∃ b0 b,
    __init__ flat_prices 1000 1 = Some b0 ∧
    execute_body 1 (generate_signals b0) = Some (Next b) ∧
    length (theta b) = 2 ∧ length (cap_V b) = 2 ∧
    length (stock_hold b) = 2 ∧ length (PnL b) = 2 ∧
    last (stock_hold b) = stock_hold b !! (2 - 1) ∧
    ((2 < length flat_prices ∧
        ∃ b', execute_body 2 b = Some (Next b') ∧ aligned 3 b' ∧
              loop_at execute_body 1 (length flat_prices) (generate_signals b0) 3 b')
     ∨ (2 < length flat_prices ∧ execute_body 2 b = Some (Break b) ∧ run b0 = Some b)
     ∨ (2 = length flat_prices ∧ run b0 = Some b)).
Proof.
  eexists _, _. split; [reflexivity|]. split; [by vm_compute|].
  eapply (sequences_grow_together flat_prices 1000 1 _ _ 2).
  - reflexivity.
  - eapply (loop_at_next _ _ _ _ 1).
    + apply loop_at_start. simpl. lia.
    + simpl. lia.
    + by vm_compute.
Defined.

(** C6.  For a valid configuration ([V_0 > 0], seed price above zero)
    the constructor succeeds and the seed elements are
    [theta[0] = V_0 * L], [cap_V[0] = 0], [PnL[0] = 0] and
    [stock_hold[0] = theta_0 / price[0]], with [theta_0 = V_0 * L]. *)
Theorem seed_values (d : DataFrame) (V0 Lev : Q) (r0 : Row) :
  d !! 0 = Some r0 → (0 < V0)%Q → (0 < Adj_Close r0)%Q →
  ∃ b0, __init__ d V0 Lev = Some b0 ∧
        theta_0 b0 = (V0 * Lev)%Q ∧
        theta b0 !! 0 = Some (V0 * Lev)%Q ∧
        cap_V b0 !! 0 = Some 0%Q ∧
        PnL b0 !! 0 = Some 0%Q ∧
        stock_hold b0 !! 0 = Some (theta_0 b0 / Adj_Close r0)%Q ∧
        aligned 1 b0.
Proof.
  intros Hr0 _ _. unfold __init__. rewrite Hr0. simpl.
  eexists. split; [reflexivity|]. by repeat split.
Qed.

Lemma seed_values_witness :
  ∃ b0, __init__ flat_prices 1000 2 = Some b0 ∧
        theta_0 b0 = (1000 * 2)%Q ∧
        theta b0 !! 0 = Some (1000 * 2)%Q ∧
        cap_V b0 !! 0 = Some 0%Q ∧
        PnL b0 !! 0 = Some 0%Q ∧
        stock_hold b0 !! 0 = Some (theta_0 b0 / 100)%Q ∧
        aligned 1 b0.
Proof.
  apply (seed_values flat_prices 1000 2 (mkRow 100 0 1)).
  - reflexivity.
  - by vm_compute.
  - by vm_compute.
Defined.

(** ** Padding *)

Lemma extend_zeros_length (d : DataFrame) (lst : list Q) :
  length d ≤ length (extend_zeros d lst).
Proof. unfold extend_zeros. rewrite length_app, length_replicate. lia. Qed.

(** Once a list is as long as the frame, extending it adds nothing. *)
Lemma extend_zeros_full (d : DataFrame) (lst : list Q) :
  length d ≤ length lst → extend_zeros d lst = lst.
Proof.
  intros Hle. unfold extend_zeros.
  replace (length d - length lst) with 0 by lia. simpl. apply app_nil_r.
Qed.

Lemma extend_zeros_idem (d : DataFrame) (lst : list Q) :
  extend_zeros d (extend_zeros d lst) = extend_zeros d lst.
Proof. apply extend_zeros_full, extend_zeros_length. Qed.

Lemma padded_column (d : DataFrame) (lst : list Q) :
  df_assign d (take (length d) (extend_zeros d lst))
  = Some (take (length d) (extend_zeros d lst)).
Proof.
  unfold df_assign. destruct (decide _) as [_ | Hne]; [reflexivity|].
  exfalso. apply Hne. apply length_take_le, extend_zeros_length.
Qed.

Lemma padded_column_spec (d : DataFrame) (lst : list Q) :
  right_padded (length d) lst (take (length d) (extend_zeros d lst)).
Proof.
  split; [apply length_take_le, extend_zeros_length|].
  intros i Hi. rewrite lookup_take_lt by exact Hi. unfold extend_zeros. split.
  - intros Hlt. by apply lookup_app_l.
  - intros Hge. rewrite lookup_app_r by exact Hge.
    apply lookup_replicate_2. lia.
Qed.

(** The accessors never fail; each stores the extended list and returns
    its first [len(df)] entries. *)
Lemma get_theta_eq (b : BuyAndHold) :
  get_theta b = Some (with_theta b (extend_zeros (df b) (theta b)),
                      take (length (df b)) (extend_zeros (df b) (theta b))).
Proof. unfold get_theta. simpl. by rewrite padded_column. Qed.

Lemma get_stock_hold_eq (b : BuyAndHold) :
  get_stock_hold b = Some (with_stock_hold b (extend_zeros (df b) (stock_hold b)),
                           take (length (df b)) (extend_zeros (df b) (stock_hold b))).
Proof. unfold get_stock_hold. simpl. by rewrite padded_column. Qed.

Lemma get_cap_V_eq (b : BuyAndHold) :
  get_cap_V b = Some (with_cap_V b (extend_zeros (df b) (cap_V b)),
                      take (length (df b)) (extend_zeros (df b) (cap_V b))).
Proof. unfold get_cap_V. simpl. by rewrite padded_column. Qed.

Lemma get_PnL_eq (b : BuyAndHold) :
  get_PnL b = Some (with_PnL b (extend_zeros (df b) (PnL b)),
                    take (length (df b)) (extend_zeros (df b) (PnL b))).
Proof. unfold get_PnL. simpl. by rewrite padded_column. Qed.

(** C7.  Each padding accessor returns a series with one entry per row
    of the frame: the raw sequence where it has an entry, zero from the
    end of the raw sequence on. *)
Theorem accessors_pad_to_length (b : BuyAndHold) :
  (∃ b' s, get_theta b = Some (b', s) ∧ right_padded (length (df b)) (theta b) s) ∧
  (∃ b' s, get_stock_hold b = Some (b', s) ∧
           right_padded (length (df b)) (stock_hold b) s) ∧
  (∃ b' s, get_cap_V b = Some (b', s) ∧ right_padded (length (df b)) (cap_V b) s) ∧
  (∃ b' s, get_PnL b = Some (b', s) ∧ right_padded (length (df b)) (PnL b) s).
Proof.
  split; [|split; [|split]]; eexists _, _.
  - split; [apply get_theta_eq | apply padded_column_spec].
  - split; [apply get_stock_hold_eq | apply padded_column_spec].
  - split; [apply get_cap_V_eq | apply padded_column_spec].
  - split; [apply get_PnL_eq | apply padded_column_spec].
Qed.

(** After a run from a constructed object no raw sequence is longer than
    the frame, so the accessors pad and never cut. *)
Lemma run_lengths (d : DataFrame) (V0 Lev : Q) (b0 bf : BuyAndHold) :
  __init__ d V0 Lev = Some b0 → run b0 = Some bf →
  df bf = d ∧ ∃ j, 1 ≤ j ≤ length d ∧ aligned j bf.
Proof.
  intros Hinit Hrun.
  destruct (init_aligned _ _ _ _ Hinit) as (Hal & Hdf & Hlen).
  destruct (run_final _ _ _ _ _ Hinit Hrun) as (j & Hat & _). subst d.
  pose proof (loop_at_bounds _ _ _ _ _ _ Hat) as Hj.
  change (length (df b0)) with (length (df (generate_signals b0))) in Hat.
  destruct (execute_invariant (generate_signals b0) bf j Hal Hat) as (Halj & Hcfg & _).
  destruct Hcfg as (_ & Hd & _). split; [exact Hd|]. by exists j.
Qed.

(** The object a padding accessor leaves is a fixed point of it. *)
Lemma get_cap_V_again (b : BuyAndHold) :
  let b1 := with_cap_V b (extend_zeros (df b) (cap_V b)) in
  get_cap_V b1 = Some (b1, take (length (df b)) (extend_zeros (df b) (cap_V b))).
Proof. simpl. rewrite get_cap_V_eq. simpl. by rewrite extend_zeros_idem. Qed.

(** C10.  A padding accessor called again on the object it left adds no
    element, leaves the object as it is and returns the same series;
    hence the call inside the loop of [get_cumulative_cap_V] reads the
    one padded series at every iteration. *)
Theorem accessors_idempotent (b : BuyAndHold) :
  (∃ b1 s, get_theta b = Some (b1, s) ∧ get_theta b1 = Some (b1, s) ∧
           length (df b1) - length (theta b1) = 0) ∧
  (∃ b1 s, get_stock_hold b = Some (b1, s) ∧ get_stock_hold b1 = Some (b1, s) ∧
           length (df b1) - length (stock_hold b1) = 0) ∧
  (∃ b1 s, get_cap_V b = Some (b1, s) ∧ get_cap_V b1 = Some (b1, s) ∧
           length (df b1) - length (cap_V b1) = 0 ∧
           ∀ i cap_V_total,
             cumulative_body i (b1, cap_V_total) =
               prev ← cap_V_total !! (i - 1);
               c ← s !! i;
               r ← df b1 !! i;
               Some (Next (b1, cap_V_total
                                 ++ [((prev + c) * (1 + Daily_Rate r / 100))%Q]))) ∧
  (∃ b1 s, get_PnL b = Some (b1, s) ∧ get_PnL b1 = Some (b1, s) ∧
           length (df b1) - length (PnL b1) = 0).
Proof.
  pose proof (extend_zeros_length (df b)) as Hlen.
  split; [|split; [|split]]; eexists _, _.
  - split; [apply get_theta_eq|].
    rewrite get_theta_eq. simpl. rewrite extend_zeros_idem.
    split; [reflexivity | specialize (Hlen (theta b)); lia].
  - split; [apply get_stock_hold_eq|].
    rewrite get_stock_hold_eq. simpl. rewrite extend_zeros_idem.
    split; [reflexivity | specialize (Hlen (stock_hold b)); lia].
  - split; [apply get_cap_V_eq|].
    pose proof (get_cap_V_again b) as Hagain. simpl in Hagain.
    split; [exact Hagain|].
    split; [simpl; specialize (Hlen (cap_V b)); lia|].
    intros i cap_V_total. unfold cumulative_body. rewrite Hagain. reflexivity.
  - split; [apply get_PnL_eq|].
    rewrite get_PnL_eq. simpl. rewrite extend_zeros_idem.
    split; [reflexivity | specialize (Hlen (PnL b)); lia].
Qed.

(** ** Capital-bucket compounding *)

(** The loop of [get_cumulative_cap_V] on an object whose capital
    sequence is already padded: entered at iteration [i] with [i]
    values, it returns, keeps the values it had and appends one
    compounded value per remaining period. *)
Lemma cumulative_loop (b1 : BuyAndHold) (col : list Q) :
  get_cap_V b1 = Some (b1, col) → length col = length (df b1) →
  ∀ m i cap_V_total,
    1 ≤ i → length cap_V_total = i → i + m = length col →
    ∃ out,
      for_loop cumulative_body (seq i m) (b1, cap_V_total) = Some (b1, out) ∧
      length out = i + m ∧
      (∀ k, k < i → out !! k = cap_V_total !! k) ∧
      ∀ k r, i ≤ k → df b1 !! k = Some r →
        ∃ prev c, out !! (k - 1) = Some prev ∧ col !! k = Some c ∧
                  out !! k = Some (compounded prev c r).
Proof.
  intros Hget Hcol. induction m as [|m IH]; intros i tot Hi Hlen Hstop.
  - exists tot. simpl. split; [reflexivity|]. split; [lia|]. split; [done|].
    intros k r Hk Hr. apply lookup_lt_Some in Hr. lia.
  - destruct (lookup_lt_is_Some_2 tot (i - 1)) as [prev Hprev]; [lia|].
    destruct (lookup_lt_is_Some_2 col i) as [c Hc]; [lia|].
    destruct (lookup_lt_is_Some_2 (df b1) i) as [r Hr]; [lia|].
    destruct (IH (S i) (tot ++ [compounded prev c r])) as (out & Hrun & Hlen' & Hkeep & Hnew);
      [lia | rewrite length_app; simpl; lia | lia |].
    exists out. split.
    { simpl. rewrite Hprev. simpl. rewrite Hget. simpl. rewrite Hc. simpl.
      rewrite Hr. simpl. exact Hrun. }
    split; [lia|]. split.
    { intros k Hk. rewrite Hkeep by lia. apply lookup_app_l. lia. }
    intros k r' Hk Hr'. destruct (decide (k = i)) as [-> | Hne].
    + rewrite Hr in Hr'. injection Hr' as <-. exists prev, c.
      split; [|split; [exact Hc|]].
      * rewrite Hkeep by lia. rewrite lookup_app_l by lia. exact Hprev.
      * rewrite Hkeep by lia. rewrite lookup_app_r by lia.
        by replace (i - length tot) with 0 by lia.
    + apply Hnew; [lia | exact Hr'].
Qed.

(** C8.  On a frame with at least one row [get_cumulative_cap_V]
    returns a series [capTotal] with one entry per row, [capTotal[0] = 0]
    and, for every later period [i],
    [capTotal[i] = (capTotal[i-1] + capV[i]) * (1 + dailyRate[i] / 100)],
    where [capV] is the padded capital series that [get_cap_V] returns. *)
Theorem cumulative_cap_V_recurrence (b : BuyAndHold) :
  df b ≠ [] →
  ∃ b1 capV capTotal,
    get_cap_V b = Some (b1, capV) ∧
    right_padded (length (df b)) (cap_V b) capV ∧
    get_cumulative_cap_V b = Some (b1, capTotal) ∧
    length capTotal = length (df b) ∧
    capTotal !! 0 = Some 0%Q ∧
    ∀ i r, 1 ≤ i → df b !! i = Some r →
      ∃ prev c, capTotal !! (i - 1) = Some prev ∧ capV !! i = Some c ∧
                capTotal !! i = Some ((prev + c) * (1 + Daily_Rate r / 100))%Q.
Proof.
  intros Hne.
  assert (Hrows : 1 ≤ length (df b)) by (destruct (df b); [done | simpl; lia]).
  pose proof (get_cap_V_eq b) as Hget.
  pose proof (get_cap_V_again b) as Hagain. simpl in Hagain.
  pose proof (padded_column_spec (df b) (cap_V b)) as Hpad.
  set (b1 := with_cap_V b (extend_zeros (df b) (cap_V b))) in *.
  set (capV := take (length (df b)) (extend_zeros (df b) (cap_V b))) in *.
  assert (Hlen : length capV = length (df b1)) by apply Hpad.
  destruct (cumulative_loop b1 capV Hagain Hlen (length capV - 1) 1 [0%Q])
    as (out & Hrun & Hlen' & Hkeep & Hnew); [lia | reflexivity | simpl in *; lia |].
  exists b1, capV, out.
  split; [exact Hget|]. split; [exact Hpad|]. split; [|split; [|split]].
  - unfold get_cumulative_cap_V. rewrite Hget. simpl. unfold range. rewrite Hrun. simpl.
    unfold df_assign. destruct (decide _) as [_ | Hbad]; [reflexivity|].
    exfalso. apply Hbad. simpl in *. lia.
  - simpl in *. lia.
  - by rewrite Hkeep by lia.
  - intros i r Hi Hr. by apply Hnew.
Qed.

Lemma cumulative_cap_V_recurrence_witness :
  ∃ b0 bf,
    __init__ rally_prices 1000 1 = Some b0 ∧ run b0 = Some bf ∧
    ∃ b1 capV capTotal,
      get_cap_V bf = Some (b1, capV) ∧
      right_padded (length (df bf)) (cap_V bf) capV ∧
      get_cumulative_cap_V bf = Some (b1, capTotal) ∧
      length capTotal = length (df bf) ∧
      capTotal !! 0 = Some 0%Q ∧
      ∀ i r, 1 ≤ i → df bf !! i = Some r →
        ∃ prev c, capTotal !! (i - 1) = Some prev ∧ capV !! i = Some c ∧
                  capTotal !! i = Some ((prev + c) * (1 + Daily_Rate r / 100))%Q.
Proof.
  eexists _, _. split; [reflexivity|]. split; [by vm_compute|].
  apply cumulative_cap_V_recurrence. by vm_compute.
Defined.

(** ** Turnover *)

Lemma length_cumsum_from (s : Series) : ∀ acc, length (cumsum_from acc s) = length s.
Proof.
  induction s as [|[x|] s IH]; intros acc; simpl; [reflexivity | |]; by rewrite IH.
Qed.

(** Over non-negative entries the running sum has a value everywhere,
    and never less than the sum it started from. *)
Lemma cumsum_from_defined (s : Series) :
  Forall nonneg_entry s →
  ∀ acc i, i < length s →
    ∃ x, cumsum_from acc s !! i = Some (Some x) ∧ ∀ a, acc = Some a → (a <= x)%Q.
Proof.
  induction 1 as [|o s (v & -> & Hv) _ IH]; intros acc i Hi; simpl in Hi; [lia|].
  destruct i as [|i]; simpl.
  - eexists. split; [reflexivity|]. intros a ->. lra.
  - destruct (IH (Some match acc with Some a => (a + v)%Q | None => v end) i)
      as (x & Hx & Hle); [lia|].
    exists x. split; [exact Hx|]. intros a ->.
    specialize (Hle _ eq_refl). lra.
Qed.

Lemma cumsum_from_mono (s : Series) :
  Forall nonneg_entry s →
  ∀ acc i j x y, i ≤ j →
    cumsum_from acc s !! i = Some (Some x) →
    cumsum_from acc s !! j = Some (Some y) →
    (x <= y)%Q.
Proof.
  induction 1 as [|o s (v & -> & Hv) Hs IH]; intros acc i j x y Hij Hx Hy;
    simpl in Hx, Hy; [done|].
  destruct i as [|i], j as [|j]; simpl in Hx, Hy; [| | lia |].
  - injection Hx as <-. injection Hy as <-. lra.
  - injection Hx as <-.
    assert (Hj : j < length s).
    { apply lookup_lt_Some in Hy. by rewrite length_cumsum_from in Hy. }
    destruct (cumsum_from_defined s Hs
                (Some match acc with Some a => (a + v)%Q | None => v end) j Hj)
      as (y' & Hy' & Hle).
    rewrite Hy in Hy'. injection Hy' as <-. by apply Hle.
  - eapply (IH _ i j); [lia | exact Hx | exact Hy].
Qed.

(** The absolute differences against a series without missing values
    are non-negative values. *)
Lemma abs_sub_nonneg (a : list Q) :
  ∀ b : Series, Forall is_Some b → length a ≤ length b →
    Forall nonneg_entry (series_abs (series_sub a b)) ∧
    length (series_abs (series_sub a b)) = length a.
Proof.
  induction a as [|x a IH]; intros b Hb Hlen; [by split; [constructor|]|].
  destruct b as [|o b]; simpl in Hlen; [lia|].
  apply Forall_cons in Hb as [[y ->] Hb].
  destruct (IH b Hb) as [Hall Hl]; [lia|].
  split; [|simpl; by f_equal].
  constructor; [|exact Hall].
  exists (Qabs (x - y)). split; [reflexivity | apply Qabs_nonneg].
Qed.

(** The first absolute difference is missing; the running sum skips it. *)
Lemma turnover_cons (a : Q) (l : list Q) :
  cumsum (series_abs (series_sub (a :: l) (shift1 (a :: l))))
  = None :: cumsum_from None
              (series_abs (series_sub l (take (length l) (Some <$> a :: l)))).
Proof. reflexivity. Qed.

Lemma turnover_running_total (l : list Q) :
  running_total (length l) (cumsum (series_abs (series_sub l (shift1 l)))).
Proof.
  destruct l as [|a l]; [by split; [|split; intros; simpl in *; lia]|].
  rewrite turnover_cons.
  set (prev := take (length l) (Some <$> a :: l)).
  destruct (abs_sub_nonneg l prev) as [Hall Hlen].
  { apply Forall_take, Forall_fmap, Forall_true. intros x. by eexists. }
  { unfold prev. rewrite length_take, length_fmap. simpl. lia. }
  split; [simpl; by rewrite length_cumsum_from, Hlen|].
  split; [reflexivity|].
  intros [|i] [|j] Hij Hj; [lia | lia | lia |]. simpl in Hj. simpl.
  destruct (cumsum_from_defined _ Hall None i) as (x & Hx & _); [lia|].
  destruct (cumsum_from_defined _ Hall None j) as (y & Hy & _); [lia|].
  exists x, y. split; [exact Hx|]. split; [exact Hy|].
  eapply (cumsum_from_mono _ Hall None i j); [lia | exact Hx | exact Hy].
Qed.

(** The entry of the difference series at a period after the first. *)
Lemma abs_delta_lookup (l : list Q) (i : nat) (a c : Q) :
  l !! i = Some a → l !! S i = Some c →
  series_abs (series_sub l (shift1 l)) !! S i = Some (Some (Qabs (c - a))).
Proof.
  intros Ha Hc. unfold series_abs, series_sub, shift1.
  rewrite list_lookup_fmap, lookup_zip_with, Hc. simpl.
  rewrite lookup_take_lt by (apply lookup_lt_Some in Hc; exact Hc).
  simpl. by rewrite list_lookup_fmap, Ha.
Qed.

(** The running sum moves on by the next entry. *)
Lemma cumsum_from_step (s : Series) :
  ∀ acc i x v,
    cumsum_from acc s !! i = Some (Some x) → s !! S i = Some (Some v) →
    cumsum_from acc s !! S i = Some (Some (x + v)%Q).
Proof.
  induction s as [|o s IH]; intros acc i x v Hx Hv; [done|].
  destruct i as [|i].
  - destruct o as [u|]; simpl in Hx; [|discriminate]. injection Hx as <-.
    destruct s as [|[w|] s]; simpl in Hv; [discriminate | | discriminate].
    injection Hv as ->. reflexivity.
  - destruct o as [u|]; simpl in Hx |- *; by apply IH.
Qed.

(** Each turnover value is the one before plus the absolute change of
    the period, starting from the absolute change of period 1. *)
Lemma turnover_step (l : list Q) (i : nat) (a c : Q) :
  l !! i = Some a → l !! S i = Some c →
  let t := cumsum (series_abs (series_sub l (shift1 l))) in
  match i with
  | 0 => t !! 1 = Some (Some (Qabs (c - a)))
  | S _ => ∃ x, t !! i = Some (Some x) ∧ t !! S i = Some (Some (x + Qabs (c - a))%Q)
  end.
Proof.
  intros Ha Hc t. pose proof (abs_delta_lookup l i a c Ha Hc) as Hd.
  destruct i as [|i].
  - destruct l as [|a0 [|c0 l]]; try discriminate.
    injection Ha as ->. injection Hc as ->. reflexivity.
  - destruct (turnover_running_total l) as (_ & _ & Hval).
    destruct (Hval (S i) (S i)) as (x & _ & Hx & _ & _);
      [lia | apply lookup_lt_Some in Hc; lia |].
    exists x. split; [exact Hx|]. by apply cumsum_from_step.
Qed.

(** C9.  Both turnover series have one entry per row of the frame and
    are non-decreasing over the periods: period 0 holds no value, its
    difference being the missing first entry of the shifted series, and
    from period 1 on each value is at least the value before. *)
Theorem turnover_non_decreasing (b : BuyAndHold) :
  (∃ b' t, get_turnover_dollars b = Some (b', t) ∧ running_total (length (df b)) t) ∧
  (∃ b' t, get_turnover_unit b = Some (b', t) ∧ running_total (length (df b)) t).
Proof.
  split.
  - unfold get_turnover_dollars. rewrite get_theta_eq. simpl. eexists _, _.
    split; [reflexivity|].
    pose proof (proj1 (padded_column_spec (df b) (theta b))) as Hlen.
    rewrite <- Hlen at 1. apply turnover_running_total.
  - unfold get_turnover_unit. rewrite get_stock_hold_eq. simpl. eexists _, _.
    split; [reflexivity|].
    pose proof (proj1 (padded_column_spec (df b) (stock_hold b))) as Hlen.
    rewrite <- Hlen at 1. apply turnover_running_total.
Qed.

(** ** The specification's scenarios, evaluated *)

(** Flat prices 100, 100, 100 with [V_0 = 1000] and [L = 1]: every period
    is in the buffer band and the run goes through all of them. *)
Example flat_run :
  (λ bf, (reduced (theta bf), cap_V bf, reduced (stock_hold bf), reduced (PnL bf)))
    <$> simulate flat_prices 1000 1
  = Some ([1000; 1000; 1000]%Q, [0; 0; 0]%Q, [10; 10; 10]%Q, [0; 10; -10]%Q).
Proof. by vm_compute. Qed.

(** The rally 100, 125, 100: over-exposed at period 1, where 250 goes to
    the capital bucket and the holding is trimmed to 8 units. *)
Example rally_run :
  (λ bf, (reduced (theta bf), reduced (cap_V bf), reduced (stock_hold bf)))
    <$> simulate rally_prices 1000 1
  = Some ([1000; 1000; 800]%Q, [0; 250; 0]%Q, [10; 8; 8]%Q).
Proof. by vm_compute. Qed.

Example rally_turnover :
  (bf ← simulate rally_prices 1000 1;
   res ← get_turnover_dollars bf; Some (reduced_series (snd res)))
  = Some [None; Some 0%Q; Some 200%Q].
Proof. by vm_compute. Qed.

Example rally_cumulative_cap_V :
  (bf ← simulate rally_prices 1000 1;
   res ← get_cumulative_cap_V bf; Some (reduced (snd res)))
  = Some [0; 255; 2601 # 10]%Q.
Proof. by vm_compute. Qed.

(** The crash 100, 40, 50 with leverage 2: the run halts at period 1 and
    the accessors pad the seed with zeros. *)
Example crash_padded :
  (bf ← simulate crash_prices 1000 2;
   res1 ← get_theta bf; res2 ← get_cap_V (fst res1);
   Some (length (theta bf), reduced (snd res1), reduced (snd res2)))
  = Some (1, [2000; 0; 0]%Q, [0; 0; 0]%Q).
Proof. by vm_compute. Qed.

(** * Further properties of the class *)

(** ** Runs from a constructed object *)

(** What is known of the object a run returns. *)
Lemma run_invariant (d : DataFrame) (V0 Lev : Q) (b0 bf : BuyAndHold) :
  __init__ d V0 Lev = Some b0 → run b0 = Some bf →
  ∃ j, 1 ≤ j ≤ length d ∧ aligned j bf ∧
       same_config (generate_signals b0) bf ∧ same_seed b0 bf ∧
       (∀ i, 1 ≤ i < j → recorded bf i) ∧
       (j = length d ∨ (j < length d ∧ execute_body j bf = Some (Break bf))).
Proof.
  intros Hinit Hrun.
  destruct (init_aligned _ _ _ _ Hinit) as (Hal & Hdf & Hlen).
  destruct (run_final _ _ _ _ _ Hinit Hrun) as (j & Hat & Hend). subst d.
  pose proof (loop_at_bounds _ _ _ _ _ _ Hat) as Hj.
  change (length (df b0)) with (length (df (generate_signals b0))) in Hat.
  destruct (execute_invariant (generate_signals b0) bf j Hal Hat)
    as (Halj & Hcfg & Hseed & Hrec).
  exists j. split; [exact Hj|]. split; [exact Halj|]. split; [exact Hcfg|].
  split; [exact Hseed|]. split; [exact Hrec | exact Hend].
Qed.

(** X1.  [generate_signals] gives every period the signal 1, leaves the
    position change missing at period 0 and zero at every later period,
    and touches neither the configuration nor the four sequences. *)
Theorem generate_signals_constant (b : BuyAndHold) :
  ∃ sg, signals (generate_signals b) = Some sg ∧
    length (Signal sg) = length (df b) ∧
    length (Position sg) = length (df b) ∧
    (∀ i, i < length (df b) → Signal sg !! i = Some 1%Q) ∧
    (0 < length (df b) → Position sg !! 0 = Some None) ∧
    (∀ i, 1 ≤ i < length (df b) → Position sg !! i = Some (Some 0%Q)) ∧
    get_signals (generate_signals b) = Some (replicate (length (df b)) 1%Q) ∧
    theta (generate_signals b) = theta b ∧ cap_V (generate_signals b) = cap_V b ∧
    stock_hold (generate_signals b) = stock_hold b ∧ PnL (generate_signals b) = PnL b.
Proof.
  eexists. split; [reflexivity|]. simpl.
  set (n := length (df b)).
  assert (Hsig : length (replicate n 1%Q) = n) by apply length_replicate.
  assert (Hshift : length (shift1 (replicate n 1%Q)) = n).
  { unfold shift1. rewrite length_take. simpl. rewrite length_fmap. lia. }
  split; [exact Hsig|].
  split; [unfold diff, series_sub; rewrite length_zip_with; lia|].
  split; [intros i Hi; by apply lookup_replicate_2|].
  split.
  { intros Hn. unfold diff, series_sub, shift1. destruct n; [lia | reflexivity]. }
  split; [|by repeat split].
  intros i [Hi1 Hin]. destruct i as [|i]; [lia|].
  unfold diff, series_sub, shift1.
  rewrite lookup_zip_with, (lookup_replicate_2 n 1%Q (S i)) by lia. simpl.
  rewrite lookup_take_lt by lia. simpl.
  rewrite list_lookup_fmap, (lookup_replicate_2 n 1%Q i) by lia. reflexivity.
Qed.

(** X2.  On a frame of one row the loop of the run has no period to go
    through: the run returns the constructed object with its signals
    generated, each sequence holding the seed alone. *)
Theorem single_row_run (r0 : Row) (V0 Lev : Q) :
  ∃ b0, __init__ [r0] V0 Lev = Some b0 ∧
        run b0 = Some (generate_signals b0) ∧
        theta b0 = [(V0 * Lev)%Q] ∧ cap_V b0 = [0%Q] ∧ PnL b0 = [0%Q] ∧
        stock_hold b0 = [(V0 * Lev / Adj_Close r0)%Q].
Proof. eexists. by repeat split. Qed.

(** ** [execute_strategy] from any object *)

(** A loop that arrives at a point where its body fails, fails. *)
Lemma for_loop_fail {A : Type} (body : nat → A → option (ctl A))
    (start stop : nat) (s0 : A) (k : nat) (sk : A) :
  loop_at body start stop s0 k sk → k < stop → body k sk = None →
  for_loop body (range start stop) s0 = None.
Proof.
  intros Hat Hlt Hb. unfold range.
  assert (Hres : for_loop body (seq k (stop - k)) sk = None).
  { replace (stop - k) with (S (stop - S k)) by lia. simpl. by rewrite Hb. }
  clear Hb Hlt. induction Hat as [|i s s' Hat IH Hlt Hb]; [exact Hres|].
  apply IH. replace (stop - i) with (S (stop - S i)) by lia.
  simpl. rewrite Hb. exact Hres.
Qed.

(** X3.  [execute_strategy] called on a constructed object before
    [generate_signals] fails at the first period whose trial exposure
    exceeds [theta_0]: the branch reads the signal of the period and
    [signals] is still unset. *)
Theorem execute_without_signals_fails (d : DataFrame) (V0 Lev : Q)
    (b0 b : BuyAndHold) (i : nat) (h : Q) (r : Row) :
  __init__ d V0 Lev = Some b0 →
  loop_at execute_body 1 (length d) b0 i b →
  stock_hold b !! (i - 1) = Some h → d !! i = Some r →
  (theta_0 b < Qabs (h * Adj_Close r))%Q →
  execute_strategy b0 = None.
Proof.
  intros Hinit Hat Hh Hr Hover.
  destruct (init_aligned _ _ _ _ Hinit) as (Hal & Hdf & Hlen).
  destruct (init_inv _ _ _ _ Hinit) as (r0 & _ & Eb0). subst d.
  destruct (execute_invariant b0 b i Hal Hat) as (_ & Hcfg & _ & _).
  destruct Hcfg as (Hsg & Hd & _).
  unfold execute_strategy. apply (for_loop_fail _ _ _ _ i b Hat).
  - by apply lookup_lt_Some in Hr.
  - rewrite (execute_body_over b i h r Hh); [|by rewrite Hd | exact Hover].
    simpl. rewrite Hsg, Eb0. reflexivity.
Qed.

Lemma execute_without_signals_fails_witness :
  ∃ b0, __init__ rally_prices 1000 1 = Some b0 ∧
        (theta_0 b0 < Qabs ((1000 * 1 / 100) * 125))%Q ∧
        execute_strategy b0 = None.
Proof.
  eexists. split; [reflexivity|]. split; [by vm_compute|].
  eapply (execute_without_signals_fails rally_prices 1000 1 _ _ 1
            (1000 * 1 / 100)%Q (mkRow 125 (1 # 4) 2)).
  - reflexivity.
  - apply loop_at_start. simpl. lia.
  - reflexivity.
  - reflexivity.
  - by vm_compute.
Defined.

(** The loop only appends: whatever the range and the object it starts
    from, each sequence of the result is the one it started with
    followed by new entries, as many for each of the four, at most one
    per iteration, and the configuration is the same. *)
Lemma for_loop_execute_extends (rng : list nat) :
  ∀ b bf, for_loop execute_body rng b = Some bf →
    ∃ ts cs hs ps,
      theta bf = theta b ++ ts ∧ cap_V bf = cap_V b ++ cs ∧
      stock_hold bf = stock_hold b ++ hs ∧ PnL bf = PnL b ++ ps ∧
      length cs = length ts ∧ length hs = length ts ∧ length ps = length ts ∧
      length ts ≤ length rng ∧ same_config b bf.
Proof.
  induction rng as [|i rng IH]; intros b bf Hrun; simpl in Hrun.
  - injection Hrun as <-. exists [], [], [], [].
    rewrite !app_nil_r. by repeat split.
  - destruct (execute_body i b) as [[b'|b']|] eqn:Hb; [| |discriminate].
    + destruct (execute_body_Next _ _ _ Hb) as (c & t & h & p & ->).
      destruct (IH _ _ Hrun) as (ts & cs & hs & ps & Et & Ec & Es & Ep & Lc & Lh & Lp & Ln & Hcfg).
      simpl in Et, Ec, Es, Ep.
      exists (t :: ts), (c :: cs), (h :: hs), (p :: ps).
      rewrite Et, Ec, Es, Ep, <- !app_assoc. simpl.
      repeat (split; [reflexivity || lia|]).
      apply (same_config_trans _ (append4 b c t h p)); [apply same_config_append4 | exact Hcfg].
    + pose proof (execute_body_Break _ _ _ Hb) as ->. injection Hrun as <-.
      exists [], [], [], []. rewrite !app_nil_r. simpl.
      repeat (split; [reflexivity || lia|]). by repeat split.
Qed.

(** The same for the whole loop of [execute_strategy]. *)
Lemma execute_strategy_extends_all (b bf : BuyAndHold) :
  execute_strategy b = Some bf →
  ∃ ts cs hs ps,
    theta bf = theta b ++ ts ∧ cap_V bf = cap_V b ++ cs ∧
    stock_hold bf = stock_hold b ++ hs ∧ PnL bf = PnL b ++ ps ∧
    length cs = length ts ∧ length hs = length ts ∧ length ps = length ts ∧
    length ts ≤ length (df b) - 1 ∧ same_config b bf.
Proof.
  intros Hrun. unfold execute_strategy in Hrun.
  destruct (for_loop_execute_extends _ _ _ Hrun)
    as (ts & cs & hs & ps & Et & Ec & Es & Ep & Lc & Lh & Lp & Ln & Hcfg).
  exists ts, cs, hs, ps. unfold range in Ln. rewrite length_seq in Ln.
  by repeat (split; [assumption|]).
Qed.

(** X4.  [execute_strategy] is append-only on every object, run before
    or not: each sequence of the result starts with the sequence it
    had, the four receive the same number of new entries, fewer than
    the frame has rows, and the frame and the configuration stay as
    they are.  A second run therefore never resets the sequences. *)
Theorem execute_strategy_appends (b bf : BuyAndHold) :
  execute_strategy b = Some bf →
  ∃ ts cs hs ps,
    theta bf = theta b ++ ts ∧ cap_V bf = cap_V b ++ cs ∧
    stock_hold bf = stock_hold b ++ hs ∧ PnL bf = PnL b ++ ps ∧
    length cs = length ts ∧ length hs = length ts ∧ length ps = length ts ∧
    length ts ≤ length (df b) - 1 ∧ same_config b bf.
Proof.
  intros Hrun. unfold execute_strategy in Hrun.
  destruct (for_loop_execute_extends _ _ _ Hrun)
    as (ts & cs & hs & ps & Et & Ec & Es & Ep & Lc & Lh & Lp & Ln & Hcfg).
  exists ts, cs, hs, ps. split; [exact Et|]. split; [exact Ec|].
  split; [exact Es|]. split; [exact Ep|]. split; [exact Lc|].
  split; [exact Lh|]. split; [exact Lp|]. split; [|exact Hcfg].
  unfold range in Ln. by rewrite length_seq in Ln.
Qed.

Lemma execute_strategy_appends_witness :
  ∃ bf bf2,
    simulate rally_prices 1000 1 = Some bf ∧ execute_strategy bf = Some bf2 ∧
    length (theta bf) = 3 ∧ length (theta bf2) = 5 ∧
    ∃ ts cs hs ps,
      theta bf2 = theta bf ++ ts ∧ cap_V bf2 = cap_V bf ++ cs ∧
      stock_hold bf2 = stock_hold bf ++ hs ∧ PnL bf2 = PnL bf ++ ps ∧
      length cs = length ts ∧ length hs = length ts ∧ length ps = length ts ∧
      length ts ≤ length (df bf) - 1 ∧ same_config bf bf2.
Proof.
  eexists _, _. split; [by vm_compute|]. split; [by vm_compute|].
  split; [reflexivity|]. split; [reflexivity|].
  apply execute_strategy_appends. by vm_compute.
Defined.

(** ** What a run keeps and where it stops *)

(** X5.  A run from a constructed object returns an object with the
    frame, [V_0], [L] and [theta_0] of the construction, the signals of
    [generate_signals] and the seed entries in place; the four
    sequences have one common length, at least one and at most the
    number of rows. *)
Theorem run_keeps_configuration (d : DataFrame) (V0 Lev : Q) (b0 bf : BuyAndHold) :
  __init__ d V0 Lev = Some b0 → run b0 = Some bf →
  df bf = d ∧ V_0 bf = V0 ∧ L bf = Lev ∧ theta_0 bf = (V0 * Lev)%Q ∧
  get_signals bf = Some (replicate (length d) 1%Q) ∧
  theta bf !! 0 = Some (V0 * Lev)%Q ∧ cap_V bf !! 0 = Some 0%Q ∧
  PnL bf !! 0 = Some 0%Q ∧ stock_hold bf !! 0 = stock_hold b0 !! 0 ∧
  ∃ j, 1 ≤ j ≤ length d ∧ aligned j bf.
Proof.
  intros Hinit Hrun.
  destruct (run_invariant _ _ _ _ _ Hinit Hrun) as (j & Hj & Hal & Hcfg & Hseed & _).
  destruct (init_inv _ _ _ _ Hinit) as (r0 & _ & ->).
  destruct Hcfg as (Hsg & Hd & HV & HL & Hth). simpl in Hsg, Hd, HV, HL, Hth.
  destruct Hseed as (St & Sc & Ss & Sp). simpl in St, Sc, Ss, Sp.
  repeat (split; [assumption|]).
  split; [unfold get_signals; by rewrite Hsg|].
  repeat (split; [assumption|]). by exists j.
Qed.

Lemma run_keeps_configuration_witness :
  ∃ b0 bf,
    __init__ crash_prices 1000 2 = Some b0 ∧ run b0 = Some bf ∧
    df bf = crash_prices ∧ V_0 bf = 1000%Q ∧ L bf = 2%Q ∧ theta_0 bf = (1000 * 2)%Q ∧
    get_signals bf = Some (replicate (length crash_prices) 1%Q) ∧
    theta bf !! 0 = Some (1000 * 2)%Q ∧ cap_V bf !! 0 = Some 0%Q ∧
    PnL bf !! 0 = Some 0%Q ∧ stock_hold bf !! 0 = stock_hold b0 !! 0 ∧
    ∃ j, 1 ≤ j ≤ length crash_prices ∧ aligned j bf.
Proof.
  eexists _, _. split; [reflexivity|]. split; [by vm_compute|].
  eapply (run_keeps_configuration crash_prices 1000 2).
  - reflexivity.
  - by vm_compute.
Defined.

(** X6.  A run stops short of the frame only on a wipeout: either the
    sequences have one entry per row, or they have [k] entries with
    [k] a period of the frame whose trial exposure
    [stock_hold[k-1] * price[k]] is at most [theta_0 - V_0] in absolute
    value. *)
Theorem run_stops_only_on_wipeout (d : DataFrame) (V0 Lev : Q) (b0 bf : BuyAndHold) :
  __init__ d V0 Lev = Some b0 → run b0 = Some bf →
  length (theta bf) = length d
  ∨ ∃ k h r, length (theta bf) = k ∧ 1 ≤ k < length d ∧
      stock_hold bf !! (k - 1) = Some h ∧ d !! k = Some r ∧
      (Qabs (h * Adj_Close r) <= theta_0 bf - V_0 bf)%Q.
Proof.
  intros Hinit Hrun.
  destruct (run_invariant _ _ _ _ _ Hinit Hrun) as (j & Hj & Hal & Hcfg & _ & _ & Hend).
  destruct Hcfg as (_ & Hd & _). simpl in Hd.
  destruct (init_aligned _ _ _ _ Hinit) as (_ & Hdf & _). rewrite Hdf in Hd.
  destruct Hal as (Ht & _).
  destruct Hend as [-> | [Hlt Hbrk]]; [by left | right].
  apply execute_body_cases in Hbrk as (h & r & Hh & Hr & Hcase).
  exists j, h, r. rewrite Hd in Hr.
  split; [exact Ht|]. split; [lia|]. split; [exact Hh|]. split; [exact Hr|].
  destruct Hcase as [(_ & sg & s & _ & _ & Hout)
                    | [(_ & _ & hl & _ & Hout) | (Hnover & Hnband & _)]];
    [discriminate | discriminate |].
  destruct (Qlt_le_dec (theta_0 bf - V_0 bf) (Qabs (h * Adj_Close r))) as [Hin | Hout];
    [|exact Hout].
  exfalso. apply Hnband. split; [|exact Hin]. by apply Qnot_lt_le.
Qed.

Lemma run_stops_only_on_wipeout_witness :
  ∃ b0 bf,
    __init__ crash_prices 1000 2 = Some b0 ∧ run b0 = Some bf ∧
    length (theta bf) = 1 ∧
    (length (theta bf) = length crash_prices
     ∨ ∃ k h r, length (theta bf) = k ∧ 1 ≤ k < length crash_prices ∧
         stock_hold bf !! (k - 1) = Some h ∧ crash_prices !! k = Some r ∧
         (Qabs (h * Adj_Close r) <= theta_0 bf - V_0 bf)%Q).
Proof.
  eexists _, _. split; [reflexivity|]. split; [by vm_compute|].
  split; [reflexivity|].
  eapply (run_stops_only_on_wipeout crash_prices 1000 2).
  - reflexivity.
  - by vm_compute.
Defined.

(** X7.  In a run from a constructed object, a period [i] that the run
    went through with a trial exposure
    [theta_t = stock_hold[i-1] * price[i]] above [theta_0 - V_0] and at
    most [theta_0] in absolute value has the entries [cap_V[i] = 0],
    [theta[i] = theta_t], [stock_hold[i] = stock_hold[i-1]] and
    [PnL[i] = return[i] * theta_t]. *)
Theorem buffer_band_values (d : DataFrame) (V0 Lev : Q) (b0 bf : BuyAndHold)
    (i : nat) (h : Q) (r : Row) :
  __init__ d V0 Lev = Some b0 → run b0 = Some bf →
  1 ≤ i ≤ length (theta bf) →
  stock_hold bf !! (i - 1) = Some h → d !! i = Some r →
  (theta_0 bf - V_0 bf < Qabs (h * Adj_Close r))%Q →
  (Qabs (h * Adj_Close r) <= theta_0 bf)%Q →
  cap_V bf !! i = Some 0%Q ∧
  theta bf !! i = Some (h * Adj_Close r)%Q ∧
  stock_hold bf !! i = Some h ∧
  PnL bf !! i = Some (Return_Unit r * (h * Adj_Close r))%Q.
Proof.
  intros Hinit Hrun Hi Hh Hr Hlo Hhi.
  destruct (run_invariant _ _ _ _ _ Hinit Hrun) as (j & Hj & Hal & Hcfg & _ & Hrec & Hend).
  destruct Hcfg as (_ & Hd & _). simpl in Hd.
  destruct (init_aligned _ _ _ _ Hinit) as (_ & Hdf & _). rewrite Hdf in Hd.
  assert (Hlen_j : length (theta bf) = j) by apply Hal.
  assert (Hij : i < j).
  { destruct (decide (i < j)) as [|Hge]; [assumption|]. exfalso.
    assert (i = j) as -> by lia.
    destruct Hend as [-> | (_ & Hbrk)].
    - apply lookup_lt_Some in Hr. lia.
    - rewrite (execute_body_band bf j h r Hh) in Hbrk;
        [|by rewrite Hd | exact Hlo | exact Hhi].
      simpl in Hbrk. destruct (last (stock_hold bf)); discriminate. }
  destruct (Hrec i) as (h' & r' & Hh' & Hr' & Hcase); [lia|].
  rewrite Hh in Hh'. injection Hh' as <-.
  rewrite Hd, Hr in Hr'. injection Hr' as <-.
  destruct Hcase as [(Hover & _) | (_ & _ & Hc & Ht & Hs & Hp)]; [exfalso; lra|].
  by repeat split.
Qed.

Lemma buffer_band_values_witness :
  let h := (1000 * 1 / 100)%Q in
  ∃ b0 bf,
    __init__ flat_prices 1000 1 = Some b0 ∧ run b0 = Some bf ∧
    cap_V bf !! 1 = Some 0%Q ∧
    theta bf !! 1 = Some (h * 100)%Q ∧
    stock_hold bf !! 1 = Some h ∧
    PnL bf !! 1 = Some ((1 # 100) * (h * 100))%Q.
Proof.
  intros h. eexists _, _. split; [reflexivity|]. split; [by vm_compute|].
  eapply (buffer_band_values flat_prices 1000 1 _ _ 1 h (mkRow 100 (1 # 100) 1)).
  - reflexivity.
  - by vm_compute.
  - simpl. lia.
  - by vm_compute.
  - reflexivity.
  - by vm_compute.
  - by vm_compute.
Defined.

(** ** Bounds the run keeps *)

(** The capital entries a run stores are zero or a positive excess. *)
Lemma run_cap_V_nonneg (d : DataFrame) (V0 Lev : Q) (b0 bf : BuyAndHold)
    (i : nat) (c : Q) :
  __init__ d V0 Lev = Some b0 → run b0 = Some bf →
  cap_V bf !! i = Some c → (0 <= c)%Q.
Proof.
  intros Hinit Hrun Hc.
  destruct (run_invariant _ _ _ _ _ Hinit Hrun) as (j & Hj & Hal & _ & Hseed & Hrec & _).
  destruct (init_inv _ _ _ _ Hinit) as (r0 & _ & ->).
  destruct i as [|i].
  - destruct Hseed as (_ & Sc & _). simpl in Sc. rewrite Sc in Hc.
    injection Hc as <-. lra.
  - assert (Hi : S i < j).
    { apply lookup_lt_Some in Hc. destruct Hal as (_ & Lc & _). lia. }
    destruct (Hrec (S i)) as (h & r & _ & _ & Hcase); [lia|].
    destruct Hcase as [(Hover & sg & s & _ & _ & Hc' & _) | (_ & _ & Hc' & _)];
      rewrite Hc in Hc'; injection Hc' as ->; lra.
Qed.

(** X8.  No raw capital entry of a run is negative: the seed and the
    buffer-band periods put zero, an over-exposed period puts the
    positive excess [|theta_t| - theta_0], and the negative value of a
    wipeout is never stored. *)
Theorem raw_cap_V_nonnegative (d : DataFrame) (V0 Lev : Q) (b0 bf : BuyAndHold)
    (i : nat) (c : Q) :
  __init__ d V0 Lev = Some b0 → run b0 = Some bf →
  cap_V bf !! i = Some c → (0 <= c)%Q.
Proof.
  intros Hinit Hrun Hc.
  destruct (run_invariant _ _ _ _ _ Hinit Hrun) as (j & _ & Hal & _ & Hseed & Hrec & _).
  destruct (init_inv _ _ _ _ Hinit) as (r0 & _ & ->).
  destruct (decide (i = 0)) as [-> | Hpos].
  - destruct Hseed as (_ & Sc & _). simpl in Sc. rewrite Sc in Hc.
    injection Hc as <-. lra.
  - assert (Hi : 1 ≤ i < j).
    { apply lookup_lt_Some in Hc. destruct Hal as (_ & Lc & _). lia. }
    destruct (Hrec i Hi) as (h & r & _ & _ & Hcase).
    destruct Hcase as [(Hover & sg & s & _ & _ & Hc' & _) | (_ & _ & Hc' & _)];
      rewrite Hc in Hc'; injection Hc' as ->; lra.
Qed.

Lemma raw_cap_V_nonnegative_witness :
  ∃ b0 bf c,
    __init__ rally_prices 1000 1 = Some b0 ∧ run b0 = Some bf ∧
    cap_V bf !! 1 = Some c ∧ (c == 250)%Q ∧ (0 <= c)%Q.
Proof.
  eexists _, _, _. split; [reflexivity|]. split; [by vm_compute|].
  split; [by vm_compute|]. split; [by vm_compute|].
  eapply (raw_cap_V_nonnegative rally_prices 1000 1 _ _ 1).
  - reflexivity.
  - by vm_compute.
  - by vm_compute.
Defined.

(** X9.  With a target exposure [theta_0 = V_0 * L] that is not
    negative, no raw exposure of a run exceeds it in absolute value:
    a buffer-band period stores an exposure within the target, an
    over-exposed one resets it to the target. *)
Theorem raw_theta_bounded (d : DataFrame) (V0 Lev : Q) (b0 bf : BuyAndHold)
    (i : nat) (t : Q) :
  __init__ d V0 Lev = Some b0 → run b0 = Some bf →
  (0 <= V0 * Lev)%Q →
  theta bf !! i = Some t → (Qabs t <= V0 * Lev)%Q.
Proof.
  intros Hinit Hrun Hpos Ht.
  destruct (run_invariant _ _ _ _ _ Hinit Hrun)
    as (j & Hj & Hal & Hcfg & Hseed & Hrec & _).
  destruct (init_inv _ _ _ _ Hinit) as (r0 & _ & ->).
  destruct Hcfg as (Hsg & _ & _ & _ & Hth). simpl in Hsg, Hth.
  destruct i as [|i].
  - destruct Hseed as (St & _). simpl in St. rewrite St in Ht.
    injection Ht as <-. rewrite Qabs_pos by exact Hpos. lra.
  - assert (Hi : S i < j).
    { apply lookup_lt_Some in Ht. destruct Hal as (Lt & _). lia. }
    destruct (Hrec (S i)) as (h & r & _ & _ & Hcase); [lia|].
    rewrite Hth in Hcase.
    destruct Hcase as [(_ & sg & s & Hsg' & Hs & _ & Ht' & _) | (Hle & _ & _ & Ht' & _)];
      rewrite Ht in Ht'; injection Ht' as ->; [|exact Hle].
    rewrite Hsg in Hsg'. injection Hsg' as <-. simpl in Hs.
    apply lookup_replicate in Hs as [-> _].
    rewrite Qabs_pos by lra. lra.
Qed.

Lemma raw_theta_bounded_witness :
  ∃ b0 bf t,
    __init__ rally_prices 1000 1 = Some b0 ∧ run b0 = Some bf ∧
    theta bf !! 2 = Some t ∧ (t == 800)%Q ∧ (Qabs t <= 1000 * 1)%Q.
Proof.
  eexists _, _, _. split; [reflexivity|]. split; [by vm_compute|].
  split; [by vm_compute|]. split; [by vm_compute|].
  eapply (raw_theta_bounded rally_prices 1000 1 _ _ 2).
  - reflexivity.
  - by vm_compute.
  - by vm_compute.
  - by vm_compute.
Defined.



(** ** The derived series *)

Lemma np_cumsum_from_spec (s : list Q) :
  ∀ acc,
    length (np_cumsum_from acc s) = length s ∧
    ∀ i x v, np_cumsum_from acc s !! i = Some x → s !! S i = Some v →
             np_cumsum_from acc s !! S i = Some (x + v)%Q.
Proof.
  induction s as [|u s IH]; intros acc; [by split|].
  destruct (IH (Some match acc with Some a => (a + u)%Q | None => u end)) as [Hlen Hstep].
  split; [simpl; by rewrite Hlen|].
  intros [|i] x v Hx Hv; simpl in Hx, Hv |- *.
  - injection Hx as <-. destruct s as [|w s]; [discriminate|].
    simpl in Hv. injection Hv as ->. reflexivity.
  - by apply Hstep.
Qed.

(** X11.  [get_cumulative_PnL] returns the running sum of the padded
    profit-and-loss series: one entry per row, the first equal to the
    padded [PnL[0]], each later one the entry before plus the padded
    [PnL] of the period; it leaves the object as [get_PnL] leaves it. *)
Theorem cumulative_PnL_running_sum (b : BuyAndHold) :
  ∃ b' pnl c,
    get_PnL b = Some (b', pnl) ∧ get_cumulative_PnL b = Some (b', c) ∧
    right_padded (length (df b)) (PnL b) pnl ∧
    running_sum_of pnl c.
Proof.
  eexists _, _, _. split; [apply get_PnL_eq|].
  split; [unfold get_cumulative_PnL; by rewrite get_PnL_eq|].
  split; [apply padded_column_spec|].
  destruct (np_cumsum_from_spec (take (length (df b)) (extend_zeros (df b) (PnL b))) None)
    as [Hlen Hstep].
  split; [exact Hlen|]. split; [|exact Hstep].
  unfold np_cumsum. by destruct (take _ _).
Qed.

(** The entries of [a - b.shift(1)] after the first. *)
Lemma sub_shift_lookup (a b : list Q) (i : nat) (x y : Q) :
  a !! S i = Some y → b !! i = Some x → S i < length b →
  series_sub a (shift1 b) !! S i = Some (Some (y - x)%Q).
Proof.
  intros Ha Hb Hlt. unfold series_sub, shift1.
  rewrite lookup_zip_with, Ha. simpl.
  rewrite lookup_take_lt by exact Hlt. simpl. by rewrite list_lookup_fmap, Hb.
Qed.

(** [get_cumulative_cap_V] on a frame with rows: the object it leaves
    and the series it returns. *)
Lemma get_cumulative_cap_V_eq (b : BuyAndHold) :
  df b ≠ [] →
  let b1 := with_cap_V b (extend_zeros (df b) (cap_V b)) in
  let capV := take (length (df b)) (extend_zeros (df b) (cap_V b)) in
  ∃ tot,
    get_cumulative_cap_V b = Some (b1, tot) ∧
    length tot = length (df b) ∧ tot !! 0 = Some 0%Q ∧
    ∀ i r, 1 ≤ i → df b !! i = Some r →
      ∃ prev c, tot !! (i - 1) = Some prev ∧ capV !! i = Some c ∧
                tot !! i = Some (compounded prev c r).
Proof.
  intros Hne b1 capV.
  assert (Hrows : 1 ≤ length (df b)) by (destruct (df b); [done | simpl; lia]).
  pose proof (get_cap_V_again b) as Hagain. simpl in Hagain. fold b1 capV in Hagain.
  assert (Hlen : length capV = length (df b1)) by apply padded_column_spec.
  destruct (cumulative_loop b1 capV Hagain Hlen (length capV - 1) 1 [0%Q])
    as (out & Hrun & Hlen' & Hkeep & Hnew); [lia | reflexivity | simpl in *; lia |].
  exists out. split; [|split; [|split]].
  - unfold get_cumulative_cap_V. rewrite get_cap_V_eq. simpl. fold b1 capV.
    unfold range. rewrite Hrun. simpl.
    unfold df_assign. destruct (decide _) as [_ | Hbad]; [reflexivity|].
    exfalso. apply Hbad. simpl in *. lia.
  - simpl in *. lia.
  - by rewrite Hkeep by lia.
  - intros i r Hi Hr. by apply Hnew.
Qed.

(** On a frame without rows the one-element list cannot be assigned. *)
Lemma get_cumulative_cap_V_empty (b : BuyAndHold) :
  df b = [] → get_cumulative_cap_V b = None.
Proof.
  intros Hd. unfold get_cumulative_cap_V. rewrite get_cap_V_eq. simpl.
  rewrite Hd. simpl. rewrite Hd. reflexivity.
Qed.

(** Padding the capital sequence first changes nothing for it. *)
Lemma get_cumulative_cap_V_padded (b : BuyAndHold) :
  get_cumulative_cap_V (with_cap_V b (extend_zeros (df b) (cap_V b)))
  = get_cumulative_cap_V b.
Proof.
  pose proof (get_cap_V_again b) as Hagain. simpl in Hagain.
  unfold get_cumulative_cap_V. by rewrite Hagain, get_cap_V_eq.
Qed.

(** X12.  [get_cumulative_cap_V] can be called again: it leaves the
    object that [get_cap_V] leaves, with the capital sequence padded,
    and a further call on that object returns the same series and the
    same object.  It succeeds on a frame with rows only. *)
Theorem cumulative_cap_V_repeatable (b b1 : BuyAndHold) (tot : list Q) :
  get_cumulative_cap_V b = Some (b1, tot) →
  df b ≠ [] ∧
  fst <$> get_cap_V b = Some b1 ∧
  get_cumulative_cap_V b1 = Some (b1, tot).
Proof.
  intros Hget.
  assert (Hne : df b ≠ []).
  { intros Hd. by rewrite (get_cumulative_cap_V_empty b Hd) in Hget. }
  destruct (get_cumulative_cap_V_eq b Hne) as (tot' & Hget' & _).
  rewrite Hget in Hget'. injection Hget' as -> ->.
  split; [exact Hne|]. split; [by rewrite get_cap_V_eq|].
  by rewrite get_cumulative_cap_V_padded.
Qed.

Lemma cumulative_cap_V_repeatable_witness :
  ∃ bf b1 tot,
    simulate rally_prices 1000 1 = Some bf ∧
    get_cumulative_cap_V bf = Some (b1, tot) ∧
    df bf ≠ [] ∧
    fst <$> get_cap_V bf = Some b1 ∧
    get_cumulative_cap_V b1 = Some (b1, tot).
Proof.
  eexists _, _, _. split; [by vm_compute|]. split; [by vm_compute|].
  apply cumulative_cap_V_repeatable. by vm_compute.
Defined.

(** X13.  On a frame with rows [get_delta_cap_V] returns the first
    difference of the compounded capital series: one entry per row,
    missing at period 0, and at every later period the compounded
    balance of the period minus the one before; the object is left as
    [get_cumulative_cap_V] leaves it. *)
Theorem delta_cap_V_first_difference (b : BuyAndHold) :
  df b ≠ [] →
  ∃ b1 tot dl,
    get_cumulative_cap_V b = Some (b1, tot) ∧
    get_delta_cap_V b = Some (b1, dl) ∧
    length tot = length (df b) ∧
    first_difference tot dl.
Proof.
  intros Hne. destruct (get_cumulative_cap_V_eq b Hne) as (tot & Hget & Hlen & H0 & _).
  eexists _, tot, _. split; [exact Hget|].
  split.
  { unfold get_delta_cap_V. rewrite Hget. simpl.
    rewrite get_cumulative_cap_V_padded, Hget. reflexivity. }
  split; [exact Hlen|].
  assert (Hshift : length (shift1 tot) = length tot).
  { unfold shift1. rewrite length_take. simpl. rewrite length_fmap. lia. }
  split; [unfold series_sub; rewrite length_zip_with; lia|].
  split.
  - intros _. destruct tot as [|x tot]; [discriminate | reflexivity].
  - intros i x y Hx Hy. apply sub_shift_lookup; [exact Hy | exact Hx |].
    by apply lookup_lt_Some in Hy.
Qed.

Lemma delta_cap_V_first_difference_witness :
  ∃ bf,
    simulate rally_prices 1000 1 = Some bf ∧
    ∃ b1 tot dl,
      get_cumulative_cap_V bf = Some (b1, tot) ∧
      get_delta_cap_V bf = Some (b1, dl) ∧
      length tot = length (df bf) ∧
      first_difference tot dl.
Proof.
  eexists. split; [by vm_compute|].
  apply delta_cap_V_first_difference. by vm_compute.
Defined.

(** X14.  If the compounding rates are at least -100 percent, the
    compounded capital series of a run has no negative entry: it starts
    at zero and every period adds a capital entry that is not negative
    and multiplies by a factor that is not negative. *)
Theorem cumulative_cap_V_nonnegative (d : DataFrame) (V0 Lev : Q)
    (b0 bf b1 : BuyAndHold) (tot : list Q) (i : nat) (x : Q) :
  __init__ d V0 Lev = Some b0 → run b0 = Some bf →
  (∀ k rk, d !! k = Some rk → (-100 <= Daily_Rate rk)%Q) →
  get_cumulative_cap_V bf = Some (b1, tot) →
  tot !! i = Some x → (0 <= x)%Q.
Proof.
  intros Hinit Hrun Hrate Hget.
  destruct (run_invariant _ _ _ _ _ Hinit Hrun) as (j & Hj & _ & Hcfg & _).
  destruct Hcfg as (_ & Hd & _). simpl in Hd.
  destruct (init_aligned _ _ _ _ Hinit) as (_ & Hdf & Hlen). rewrite Hdf in Hd.
  assert (Hne : df bf ≠ []) by (rewrite Hd; destruct d; [simpl in Hlen; lia | done]).
  destruct (get_cumulative_cap_V_eq bf Hne) as (tot' & Hget' & Hlen' & H0 & Hstep).
  rewrite Hget in Hget'. injection Hget' as _ <-.
  assert (Hpad : ∀ k c, take (length (df bf)) (extend_zeros (df bf) (cap_V bf)) !! k = Some c
                        → (0 <= c)%Q).
  { intros k c Hk.
    destruct (padded_column_spec (df bf) (cap_V bf)) as [Hl Hp].
    assert (Hkn : k < length (df bf)) by (apply lookup_lt_Some in Hk; lia).
    destruct (Hp k Hkn) as [Hraw Hzero].
    destruct (decide (k < length (cap_V bf))) as [Hlt | Hge].
    - rewrite (Hraw Hlt) in Hk. by apply (run_cap_V_nonneg d V0 Lev b0 bf k c).
    - rewrite Hzero in Hk by lia. injection Hk as <-. lra. }
  revert x. induction i as [|i IH]; intros x Hx.
  - rewrite H0 in Hx. injection Hx as <-. lra.
  - assert (Hin : S i < length (df bf)) by (apply lookup_lt_Some in Hx; lia).
    destruct (lookup_lt_is_Some_2 (df bf) (S i) Hin) as [r Hr].
    destruct (Hstep (S i) r) as (prev & c & Hprev & Hc & Hnew); [lia | exact Hr|].
    replace (S i - 1) with i in Hprev by lia.
    rewrite Hx in Hnew. injection Hnew as ->.
    pose proof (IH prev Hprev) as Hp0. pose proof (Hpad _ _ Hc) as Hc0.
    rewrite Hd in Hr. pose proof (Hrate _ _ Hr) as Hr0.
    unfold compounded. apply Qmult_le_0_compat; [lra|].
    assert (Hdiv : (Daily_Rate r / 100 == Daily_Rate r * (1 # 100))%Q) by (field; done).
    rewrite Hdiv. lra.
Qed.

Lemma cumulative_cap_V_nonnegative_witness :
  ∃ b0 bf b1 tot x,
    __init__ rally_prices 1000 1 = Some b0 ∧ run b0 = Some bf ∧
    get_cumulative_cap_V bf = Some (b1, tot) ∧
    tot !! 2 = Some x ∧ (x == 2601 # 10)%Q ∧ (0 <= x)%Q.
Proof.
  eexists _, _, _, _, _. split; [reflexivity|]. split; [by vm_compute|].
  split; [by vm_compute|]. split; [by vm_compute|]. split; [by vm_compute|].
  eapply (cumulative_cap_V_nonnegative rally_prices 1000 1 _ _ _ _ 2).
  - reflexivity.
  - by vm_compute.
  - intros [|[|[|k]]] rk Hk; try discriminate; injection Hk as <-; by vm_compute.
  - by vm_compute.
  - by vm_compute.
Defined.

(** X15.  Each turnover series accumulates the absolute changes of its
    padded series: the value at period 1 is the absolute change from
    period 0, and every later value is the value before plus the
    absolute change of the period. *)
Theorem turnover_accumulates (b : BuyAndHold) :
  (∃ b' th t, get_theta b = Some (b', th) ∧ get_turnover_dollars b = Some (b', t) ∧
              accumulates_changes th t) ∧
  (∃ b' sh t, get_stock_hold b = Some (b', sh) ∧ get_turnover_unit b = Some (b', t) ∧
              accumulates_changes sh t).
Proof.
  split; eexists _, _, _.
  - split; [apply get_theta_eq|].
    split; [unfold get_turnover_dollars; by rewrite get_theta_eq|].
    intros i a c Ha Hc. by apply turnover_step.
  - split; [apply get_stock_hold_eq|].
    split; [unfold get_turnover_unit; by rewrite get_stock_hold_eq|].
    intros i a c Ha Hc. by apply turnover_step.
Qed.

(** ** Accessors and the run *)

#[local] Arguments extend_zeros : simpl never.

(** A sequence that already fills the frame comes back from the
    accessor as its first [len(df)] entries, whatever follows them. *)
Lemma padded_column_prefix (d : DataFrame) (lst ext : list Q) :
  length d ≤ length lst →
  take (length d) (extend_zeros d (lst ++ ext)) = take (length d) (extend_zeros d lst).
Proof.
  intros Hle.
  rewrite (extend_zeros_full d lst Hle).
  rewrite (extend_zeros_full d (lst ++ ext)) by (rewrite length_app; lia).
  by apply take_app_le.
Qed.

(** X16.  A padding accessor called before the run freezes its series:
    [get_theta] on a constructed object pads the exposure sequence to
    the seed followed by zeros, the run then appends its exposures
    after those zeros, and [get_theta] after the run cuts them off and
    returns the seed followed by zeros again. *)
Theorem get_theta_before_run_freezes (d : DataFrame) (V0 Lev : Q)
    (b0 b1 bf : BuyAndHold) (s : list Q) :
  __init__ d V0 Lev = Some b0 →
  get_theta b0 = Some (b1, s) →
  run b1 = Some bf →
  s = (V0 * Lev)%Q :: replicate (length d - 1) 0%Q ∧
  snd <$> get_theta bf = Some s ∧
  ∃ ts, theta bf = s ++ ts ∧ length (stock_hold bf) = S (length ts).
Proof.
  intros Hinit Hget Hrun.
  destruct (init_inv _ _ _ _ Hinit) as (r0 & Hr0 & ->).
  rewrite get_theta_eq in Hget. injection Hget as <- <-. simpl in *.
  assert (Hlen : 1 ≤ length d) by (apply lookup_lt_Some in Hr0; lia).
  assert (Hfull : extend_zeros d [(V0 * Lev)%Q]
                  = (V0 * Lev)%Q :: replicate (length d - 1) 0%Q) by reflexivity.
  assert (Hfill : length d ≤ length (extend_zeros d [(V0 * Lev)%Q])).
  { rewrite Hfull. simpl. rewrite length_replicate. lia. }
  assert (Hs : take (length d) (extend_zeros d [(V0 * Lev)%Q])
               = (V0 * Lev)%Q :: replicate (length d - 1) 0%Q).
  { rewrite <- Hfull. apply take_ge. rewrite Hfull. simpl. rewrite length_replicate. lia. }
  unfold run in Hrun.
  destruct (execute_strategy_extends_all _ _ Hrun)
    as (ts & cs & hs & ps & Et & _ & Es & _ & _ & Lh & _ & _ & Hcfg).
  destruct Hcfg as (_ & Hd & _).
  cbn [theta stock_hold df generate_signals with_theta] in Et, Es, Hd.
  split; [exact Hs|]. split.
  - rewrite get_theta_eq. simpl. rewrite Hd, Et.
    rewrite (padded_column_prefix d _ ts Hfill). by rewrite extend_zeros_idem.
  - exists ts. rewrite Hs, <- Hfull. split; [exact Et|].
    rewrite Es, length_app. simpl. lia.
Qed.

Lemma get_theta_before_run_freezes_witness :
  ∃ b0 b1 bf s,
    __init__ rally_prices 1000 1 = Some b0 ∧
    get_theta b0 = Some (b1, s) ∧
    run b1 = Some bf ∧
    length (theta bf) = 5 ∧
    s = (1000 * 1)%Q :: replicate (length rally_prices - 1) 0%Q ∧
    snd <$> get_theta bf = Some s ∧
    ∃ ts, theta bf = s ++ ts ∧ length (stock_hold bf) = S (length ts).
Proof.
  eexists _, _, _, _. split; [reflexivity|]. split; [by vm_compute|].
  split; [by vm_compute|]. split; [reflexivity|].
  eapply (get_theta_before_run_freezes rally_prices 1000 1).
  - reflexivity.
  - by vm_compute.
  - by vm_compute.
Defined.
